(** * CoAP client of the plant node: a shallow embedding and its properties

    The development follows [main/src/network/coap_client.c]:

    - C integers are values in [Z] with the wrap-around of their type written
      out ([to_uint8], [to_uint16], [to_size_t]; the target is a 32-bit
      ESP32, so [size_t] has 32 bits);
    - a byte buffer is a [list Z] written by index; the caller's capacity is
      passed next to it as in the C signatures;
    - a C string is the list of its characters before the terminating NUL;
      a pointer that may be NULL is an [option];
    - calls into the platform (Wi-Fi driver, scheduler, sockets, logger)
      are recorded as a trace of events, their results being read from a
      [platform] record.  *)

From Stdlib Require Import ZArith Lia Bool String Ascii.
From stdpp Require Import list.
From Equations Require Import Equations.

Open Scope Z_scope.

(** ** Machine integers *)

Definition to_uint8 (z : Z) : Z := z mod 2 ^ 8.
Definition to_uint16 (z : Z) : Z := z mod 2 ^ 16.
Definition to_size_t (z : Z) : Z := z mod 2 ^ 32.

(** [buffer[i] = v] and [memcpy(&buffer[i], src, n)]. *)
Definition store (buffer : list Z) (i : Z) (v : Z) : list Z :=
  <[Z.to_nat i := v]> buffer.

Definition memcpy (buffer : list Z) (i : Z) (src : list Z) (n : Z) : list Z :=
  list_inserts (Z.to_nat i) (take (Z.to_nat n) src) buffer.

(** ** C strings *)

Definition strlen (s : list Z) : Z := Z.of_nat (length s).

(** A string literal as the bytes of its characters. *)
Definition bytes_of_string (s : string) : list Z :=
  map (fun a => Z.of_N (N_of_ascii a)) (list_ascii_of_string s).

(** ** CoAP constants *)

Definition COAP_VERSION : Z := 1.
Definition COAP_TYPE_CON : Z := 0.
Definition COAP_CODE_POST : Z := 2.
Definition COAP_OPTION_URI_PATH : Z := 11.
Definition COAP_OPTION_CONTENT_FORMAT : Z := 12.
Definition COAP_OPTION_URI_QUERY : Z := 15.
Definition COAP_CONTENT_FORMAT_JSON : Z := 50.
Definition COAP_PAYLOAD_MARKER : Z := 0xFF.

(** ** The message builder *)

(** [coap_message_t]; [msg_buffer] is the memory [buffer] points to. *)
Record coap_message_t := {
  msg_buffer : list Z;
  msg_length : Z;
  msg_capacity : Z;
  msg_last_option_number : Z
}.

Definition coap_message_init (buffer : list Z) (capacity : Z) : coap_message_t :=
  {| msg_buffer := buffer; msg_length := 0; msg_capacity := capacity;
     msg_last_option_number := 0 |}.

Definition coap_message_add_header (msg : coap_message_t) (message_id : Z)
  : bool * coap_message_t :=
  if to_size_t (msg_length msg + 4) >? msg_capacity msg then (false, msg)
  else
    let b0 := store (msg_buffer msg) 0
                (to_uint8 (Z.lor (Z.lor (Z.shiftl COAP_VERSION 6)
                                        (Z.shiftl COAP_TYPE_CON 4)) 0)) in
    let b1 := store b0 1 (to_uint8 COAP_CODE_POST) in
    let b2 := store b1 2 (to_uint8 (Z.land (Z.shiftr message_id 8) 0xFF)) in
    let b3 := store b2 3 (to_uint8 (Z.land message_id 0xFF)) in
    (true, {| msg_buffer := b3; msg_length := 4;
              msg_capacity := msg_capacity msg;
              msg_last_option_number := msg_last_option_number msg |}).

(** The local [space_needed] of [coap_message_add_option]. *)
Definition option_space_needed (delta value_len : Z) : Z :=
  let s := to_size_t (1 + value_len) in
  let s := if delta >=? 13 then to_size_t (s + 1) else s in
  let s := if delta >=? 269 then to_size_t (s + 1) else s in
  let s := if value_len >=? 13 then to_size_t (s + 1) else s in
  let s := if value_len >=? 269 then to_size_t (s + 1) else s in
  s.

(** The 4-bit field chosen for a delta or a length. *)
Definition nibble_of (v : Z) : Z :=
  if v <? 13 then to_uint8 v else if v <? 269 then 13 else 14.

(** The write cursor of [coap_message_add_option]: the buffer, the index
    [pos] points to, and [msg->length]. *)
Record cursor := { cur_buffer : list Z; cur_pos : Z; cur_length : Z }.

(** [*pos++ = v;] *)
Definition put (c : cursor) (v : Z) : cursor :=
  {| cur_buffer := store (cur_buffer c) (cur_pos c) (to_uint8 v);
     cur_pos := cur_pos c + 1; cur_length := cur_length c |}.

(** [msg->length += n;] *)
Definition advance (c : cursor) (n : Z) : cursor :=
  {| cur_buffer := cur_buffer c; cur_pos := cur_pos c;
     cur_length := to_size_t (cur_length c + n) |}.

(** The extended delta or length bytes that follow the first option byte:
    [v] is the value, [ext16] the 16-bit difference [v - 269], [ext8] the
    value [(v - 13) & 0xFF]. *)
Definition put_extended (c : cursor) (nibble ext8 ext16 : Z) : cursor :=
  if nibble =? 13 then advance (put c ext8) 1
  else if nibble =? 14 then
    advance (put (put c (Z.land (Z.shiftr ext16 8) 0xFF)) (Z.land ext16 0xFF)) 2
  else c.

Definition is_null {A} (p : option A) : bool :=
  match p with None => true | Some _ => false end.

Definition deref (p : option (list Z)) : list Z :=
  match p with None => [] | Some l => l end.

Definition coap_message_add_option (msg : coap_message_t) (option_number : Z)
    (value : option (list Z)) (value_len : Z) : bool * coap_message_t :=
  if is_null value && (value_len >? 0) then (false, msg)
  else
    let delta := to_uint16 (option_number - msg_last_option_number msg) in
    let space_needed := option_space_needed delta value_len in
    if to_size_t (msg_length msg + space_needed) >? msg_capacity msg
    then (false, msg)
    else
      let c := {| cur_buffer := msg_buffer msg; cur_pos := msg_length msg;
                  cur_length := msg_length msg |} in
      let delta_nibble := nibble_of delta in
      let length_nibble := nibble_of value_len in
      let c := advance (put c (Z.lor (Z.shiftl delta_nibble 4) length_nibble)) 1 in
      let c := put_extended c delta_nibble
                 (Z.land (delta - 13) 0xFF) (to_uint16 (delta - 269)) in
      let c := put_extended c length_nibble
                 (Z.land (to_size_t (value_len - 13)) 0xFF)
                 (to_uint16 (value_len - 269)) in
      let c := if value_len >? 0
               then advance
                      {| cur_buffer := memcpy (cur_buffer c) (cur_pos c)
                                         (deref value) value_len;
                         cur_pos := cur_pos c; cur_length := cur_length c |}
                      value_len
               else c in
      (true, {| msg_buffer := cur_buffer c; msg_length := cur_length c;
                msg_capacity := msg_capacity msg;
                msg_last_option_number := option_number |}).

Definition coap_message_add_payload (msg : coap_message_t)
    (payload : option (list Z)) : bool * coap_message_t :=
  match payload with
  | None => (true, msg)
  | Some payload =>
      let payload_len := strlen payload in
      if payload_len =? 0 then (true, msg)
      else if to_size_t (to_size_t (msg_length msg + 1) + payload_len)
                >? msg_capacity msg
      then (false, msg)
      else
        let b := store (msg_buffer msg) (msg_length msg) (to_uint8 COAP_PAYLOAD_MARKER) in
        let len := to_size_t (msg_length msg + 1) in
        let b := memcpy b len payload payload_len in
        (true, {| msg_buffer := b; msg_length := to_size_t (len + payload_len);
                  msg_capacity := msg_capacity msg;
                  msg_last_option_number := msg_last_option_number msg |})
  end.

(** ** String functions of the C library *)

Definition mem (c : Z) (set : list Z) : bool := existsb (Z.eqb c) set.

(** Length of the initial part of [s] made of characters in [accept]. *)
Fixpoint strspn (s accept : list Z) : nat :=
  match s with
  | c :: s' => if mem c accept then S (strspn s' accept) else O
  | [] => O
  end.

(** Length of the initial part of [s] free of the characters in [reject]. *)
Fixpoint strcspn (s reject : list Z) : nat :=
  match s with
  | c :: s' => if mem c reject then O else S (strcspn s' reject)
  | [] => O
  end.

(** [strchr(s, c)]: the index of the first [c], [None] for NULL. *)
Fixpoint strchr (s : list Z) (c : Z) : option nat :=
  match s with
  | d :: s' => if d =? c then Some O else option_map S (strchr s' c)
  | [] => None
  end.

(** [strtok(str, delim)] over its hidden state [saved], the text left to
    scan: leading delimiters are skipped, the token runs to the next
    delimiter, which is overwritten by NUL, and scanning resumes behind it. *)
Definition strtok (str : option (list Z)) (delim : list Z) (saved : list Z)
  : option (list Z) * list Z :=
  let s := match str with Some s => s | None => saved end in
  let s := drop (strspn s delim) s in
  match s with
  | [] => (None, [])
  | _ => let n := strcspn s delim in (Some (take n s), drop (S n) s)
  end.

Definition slash : list Z := [47].

(** ** The parsed URI *)

Record coap_uri_t := {
  host : list Z;
  port : Z;
  path : list Z;
  query : list Z
}.

(** ** The simple encoder *)

(** What is left of the segment loop: one more round when a segment is at
    hand, plus the text [strtok] has still to scan. *)
Definition loop_measure (segment : option (list Z)) (saved : list Z) : nat :=
  match segment with
  | Some _ => S (length saved)
  | None => O
  end.

(** The [while (segment != NULL && strlen(segment) > 0)] loop of
    [build_simple_coap_message].  [(None, buffer)] is [return false];
    [(Some pos, buffer)] leaves the loop with the write index [pos]. *)
Equations? uri_path_loop (segment : option (list Z)) (saved : list Z)
    (first_segment : bool) (pos : Z) (buffer : list Z) (buffer_size : Z)
  : option Z * list Z by wf (loop_measure segment saved) lt :=
  uri_path_loop None saved first_segment pos buffer buffer_size :=
    (Some pos, buffer);
  uri_path_loop (Some segment) saved first_segment pos buffer buffer_size :=
    if strlen segment >? 0 then
      let seg_len := strlen segment in
      if seg_len >? 12 then (None, buffer)
      else if to_size_t (to_size_t (pos + 1) + seg_len) >? buffer_size
      then (None, buffer)
      else
        let buffer :=
          store buffer pos
            (to_uint8 (Z.lor (if first_segment then 0xB0 else 0x00)
                             (to_uint8 seg_len))) in
        let pos := to_size_t (pos + 1) in
        let buffer := memcpy buffer pos segment seg_len in
        let pos := to_size_t (pos + seg_len) in
        uri_path_loop (strtok None slash saved).1 (strtok None slash saved).2
          false pos buffer buffer_size
    else (Some pos, buffer).
Proof.
  unfold strtok.
  destruct (drop (strspn saved slash) saved) as [|c s] eqn:E; simpl; [lia|].
  rewrite length_drop.
  assert (length (drop (strspn saved slash) saved) = S (length s)) as H
    by (rewrite E; reflexivity).
  rewrite length_drop in H. simpl. lia.
Qed.

(** [build_simple_coap_message(uri, payload, buffer, buffer_size,
    &message_len)].  The first component is [Some len] when the function
    returns [true] with [*message_len = len], and [None] when it returns
    [false]; the second is the buffer as the call leaves it. *)
Definition build_simple_coap_message (uri : coap_uri_t)
    (payload : option (list Z)) (buffer : list Z) (buffer_size : Z)
  : option Z * list Z :=
  let pos := 0 in
  if to_size_t (pos + 4) >? buffer_size then (None, buffer)
  else
    let buffer := store buffer pos 0x40 in
    let pos := to_size_t (pos + 1) in
    let buffer := store buffer pos 0x02 in
    let pos := to_size_t (pos + 1) in
    let buffer := store buffer pos 0x12 in
    let pos := to_size_t (pos + 1) in
    let buffer := store buffer pos 0x34 in
    let pos := to_size_t (pos + 1) in
    let after_path :=
      if strlen (path uri) >? 0 then
        let path_copy := take 63 (path uri) in
        let tok := strtok (Some path_copy) slash [] in
        uri_path_loop tok.1 tok.2 true pos buffer buffer_size
      else (Some pos, buffer) in
    match after_path with
    | (None, buffer) => (None, buffer)
    | (Some pos, buffer) =>
        if to_size_t (pos + 2) >? buffer_size then (None, buffer)
        else
          let buffer := store buffer pos 0x11 in
          let pos := to_size_t (pos + 1) in
          let buffer := store buffer pos 50 in
          let pos := to_size_t (pos + 1) in
          match payload with
          | Some payload =>
              if strlen payload >? 0 then
                let payload_len := strlen payload in
                if to_size_t (to_size_t (pos + 1) + payload_len) >? buffer_size
                then (None, buffer)
                else
                  let buffer := store buffer pos 0xFF in
                  let pos := to_size_t (pos + 1) in
                  let buffer := memcpy buffer pos payload payload_len in
                  let pos := to_size_t (pos + payload_len) in
                  (Some pos, buffer)
              else (Some pos, buffer)
          | None => (Some pos, buffer)
          end
    end.

(** ** [sscanf]

    The conversions the two format strings of [parse_coap_uri] use, after
    the C standard (7.21.6.2): an ordinary character must match the next
    input character; [%N[^...]] reads up to [N] characters outside the
    excluded set and needs at least one; [%d] skips white space and reads an
    optionally signed decimal integer; [%Ns] skips white space and reads up
    to [N] characters that are not white space. *)

Inductive directive :=
| DChar (c : Z)
| DScanset (width : nat) (excluded : list Z)
| DInt
| DString (width : nat).

Inductive item :=
| IStr (s : list Z)
| IInt (i : Z).

Inductive scan_result :=
| Matched (assigned : list item) (rest : list Z)
| MatchingFailure
| InputFailure.

Definition EOF : Z := -1.
Definition INT_MAX : Z := 2 ^ 31 - 1.
Definition INT_MIN : Z := - 2 ^ 31.

Definition white_space : list Z := [32; 9; 10; 11; 12; 13].

Definition isdigit (c : Z) : bool := (48 <=? c) && (c <=? 57).

(** Number of leading decimal digits and the number they denote. *)
Fixpoint digits_len (s : list Z) : nat :=
  match s with
  | c :: s' => if isdigit c then S (digits_len s') else O
  | [] => O
  end.

Definition digits_value (s : list Z) : Z :=
  fold_left (fun acc c => 10 * acc + (c - 48)) s 0.

(** The value [%d] stores for a digit string too large for [int] is not
    defined by the standard; the C library of the target converts with
    [strtol], which saturates. *)
Definition to_int_saturated (z : Z) : Z := Z.max INT_MIN (Z.min INT_MAX z).

Definition scan_int (input : list Z) : scan_result :=
  let input := drop (strspn input white_space) input in
  match input with
  | [] => InputFailure
  | c :: after_sign =>
      let negative := c =? 45 in
      let body := if negative || (c =? 43) then after_sign else input in
      let n := digits_len body in
      if (n =? 0)%nat then MatchingFailure
      else
        let v := digits_value (take n body) in
        Matched [IInt (to_int_saturated (if negative then - v else v))]
                (drop n body)
  end.

Definition scan_directive (d : directive) (input : list Z) : scan_result :=
  match d with
  | DChar c =>
      match input with
      | [] => InputFailure
      | x :: rest => if x =? c then Matched [] rest else MatchingFailure
      end
  | DScanset width excluded =>
      match input with
      | [] => InputFailure
      | _ =>
          let n := Nat.min width (strcspn input excluded) in
          if (n =? 0)%nat then MatchingFailure
          else Matched [IStr (take n input)] (drop n input)
      end
  | DInt => scan_int input
  | DString width =>
      let input := drop (strspn input white_space) input in
      match input with
      | [] => InputFailure
      | _ =>
          let n := Nat.min width (strcspn input white_space) in
          Matched [IStr (take n input)] (drop n input)
      end
  end.

(** The directives are run in order; the result is the number of items
    assigned, or [EOF] when the input ends before the first assignment. *)
Fixpoint sscanf_run (format : list directive) (input : list Z)
    (assigned : list item) : Z * list item :=
  match format with
  | [] => (Z.of_nat (length assigned), assigned)
  | d :: format' =>
      match scan_directive d input with
      | Matched items rest => sscanf_run format' rest (assigned ++ items)
      | MatchingFailure => (Z.of_nat (length assigned), assigned)
      | InputFailure =>
          (match assigned with
           | [] => EOF
           | _ => Z.of_nat (length assigned)
           end, assigned)
      end
  end.

Definition sscanf (str : list Z) (format : list directive) : Z * list item :=
  sscanf_run format str [].

(** The [i]-th assigned item written to a string or to an [int] argument,
    which keeps its value [old] when that item was not assigned. *)
Definition assigned_str (items : list item) (i : nat) (old : list Z) : list Z :=
  match items !! i with
  | Some (IStr s) => s
  | _ => old
  end.

Definition assigned_int (items : list item) (i : nat) (old : Z) : Z :=
  match items !! i with
  | Some (IInt v) => v
  | _ => old
  end.

(** ["coap://%63[^:/]:%d/%127s"] *)
Definition format_host_port_path : list directive :=
  map DChar (bytes_of_string "coap://")
  ++ [DScanset 63 [58; 47]; DChar 58; DInt; DChar 47; DString 127].

(** ["coap://%63[^/]/%127s"] *)
Definition format_host_path : list directive :=
  map DChar (bytes_of_string "coap://")
  ++ [DScanset 63 [47]; DChar 47; DString 127].

(** ** [parse_coap_uri] *)

(** [ParseFalse] and [ParseTrue parsed] are the two returns of the
    function.  [ParseOverrun] stands for the runs in which the text before
    ['?'] has more than 63 characters: [strncpy] and the terminating NUL
    are then written past the 64 bytes of [parsed->path], which C leaves
    undefined. *)
Inductive parse_result :=
| ParseFalse
| ParseTrue (parsed : coap_uri_t)
| ParseOverrun.

Definition question_mark : Z := 63.

Definition parse_coap_uri (uri : option (list Z)) : parse_result :=
  match uri with
  | None => ParseFalse
  | Some uri =>
      let host := [] in
      let port := 5683 in
      let path_and_query := [] in
      let scan := sscanf uri format_host_port_path in
      let host := assigned_str scan.2 0 host in
      let port := assigned_int scan.2 1 port in
      let path_and_query := assigned_str scan.2 2 path_and_query in
      let scanned :=
        if scan.1 <? 2 then
          let port := 5683 in
          let scan := sscanf uri format_host_path in
          let host := assigned_str scan.2 0 host in
          let path_and_query := assigned_str scan.2 1 path_and_query in
          if scan.1 <? 2 then None else Some (host, port, path_and_query)
        else Some (host, port, path_and_query) in
      match scanned with
      | None => ParseFalse
      | Some (host, port, path_and_query) =>
          match strchr path_and_query question_mark with
          | Some path_len =>
              if (63 <? path_len)%nat then ParseOverrun
              else
                ParseTrue
                  {| host := host; port := port;
                     path := take path_len path_and_query;
                     query := take 63 (drop (S path_len) path_and_query) |}
          | None =>
              ParseTrue
                {| host := host; port := port;
                   path := take 63 path_and_query; query := [] |}
          end
      end
  end.

(** ** The platform and the trace of a run *)

(** What the platform answers: whether the [k]-th call of
    [esp_wifi_sta_get_ap_info] returns [ESP_OK], and the values returned by
    [socket], by [inet_pton] on a host string, and by [sendto] on a socket,
    a destination (host and 16-bit port) and a datagram. *)
Record platform := {
  esp_wifi_sta_get_ap_info : nat -> bool;
  socket : Z;
  inet_pton : list Z -> Z;
  sendto : Z -> list Z -> Z -> list Z -> Z
}.

Inductive log_level := LOGE | LOGW | LOGI.

(** The calls a run makes into the platform, and the log lines of
    [send_coap_udp], [coap_send_sensor_data] and [coap_send_task], by which
    these report their outcome (named by their format string). *)
Inductive event :=
| EvApInfo (ok : bool)
| EvTaskDelay (ms : Z)
| EvSocket (ret : Z)
| EvInetPton (host : list Z) (ret : Z)
| EvSendto (sock : Z) (host : list Z) (sin_port : Z) (datagram : list Z) (ret : Z)
| EvClose (sock : Z)
| EvLog (level : log_level) (format : string)
| EvTaskDelete.

(** [htons(uri->port)]: the [int] is converted to [uint16_t]. *)
Definition htons (p : Z) : Z := to_uint16 p.

(** ** [wait_for_wifi] *)

(** The loop [while (waited < timeout_ms)]; [calls] counts the polls made
    so far. *)
Equations? wait_for_wifi_loop (pf : platform) (timeout_ms waited : Z)
    (calls : nat) : bool * list event
  by wf (Z.to_nat (timeout_ms - waited)) lt :=
  wait_for_wifi_loop pf timeout_ms waited calls
    with Z_lt_dec waited timeout_ms := {
    | left _ =>
        if esp_wifi_sta_get_ap_info pf calls then (true, [EvApInfo true])
        else
          let r := wait_for_wifi_loop pf timeout_ms (waited + 100) (S calls) in
          (r.1, [EvApInfo false; EvTaskDelay 100] ++ r.2)
    | right _ => (false, [])
    }.
Proof. lia. Qed.

Definition wait_for_wifi (pf : platform) (timeout_ms : Z) : bool * list event :=
  wait_for_wifi_loop pf timeout_ms 0 0.

(** ** [send_coap_udp] *)

Definition send_coap_udp (pf : platform) (uri : coap_uri_t)
    (message : list Z) (message_len : Z) : bool * list event :=
  let sock := socket pf in
  let trace := [EvSocket sock] in
  if sock <? 0 then
    (false, trace ++ [EvLog LOGE "Failed to create UDP socket"])
  else
    let sin_port := htons (port uri) in
    let converted := inet_pton pf (host uri) in
    let trace := trace ++ [EvInetPton (host uri) converted] in
    if converted <=? 0 then
      (false, trace ++ [EvLog LOGE "Invalid IP address: %s"; EvClose sock])
    else
      let datagram := take (Z.to_nat message_len) message in
      let sent := sendto pf sock (host uri) sin_port datagram in
      let trace := trace ++ [EvSendto sock (host uri) sin_port datagram sent] in
      let trace := trace ++ [EvClose sock] in
      if sent <? 0 then
        (false, trace ++ [EvLog LOGE "Failed to send UDP packet"])
      else
        (true, trace ++ [EvLog LOGI
           "CoAP POST sent successfully to %s:%d (path: /%s, query: %s, %d bytes)"]).

(** ** The dispatcher *)

(** [coap_send_sensor_data(uri, payload)].  [coap_buffer] is what the
    512-byte local array holds when the function is entered.  The result is
    [None] for the runs [parse_coap_uri] leaves undefined. *)
Definition coap_send_sensor_data (pf : platform) (uri payload : option (list Z))
    (coap_buffer : list Z) : option (list event) :=
  if is_null uri || is_null payload then
    Some [EvLog LOGE "Invalid parameters"]
  else
    match parse_coap_uri uri with
    | ParseOverrun => None
    | ParseFalse => Some []
    | ParseTrue parsed_uri =>
        let trace := [EvLog LOGI "CoAP payload: %s"] in
        match build_simple_coap_message parsed_uri payload coap_buffer 512 with
        | (None, _) =>
            Some (trace ++ [EvLog LOGE "Failed to build simple CoAP message"])
        | (Some message_len, coap_buffer) =>
            let sent := send_coap_udp pf parsed_uri coap_buffer message_len in
            if negb sent.1 then
              Some (trace ++ sent.2 ++ [EvLog LOGE "Failed to send CoAP message"])
            else
              Some (trace ++ sent.2
                    ++ [EvLog LOGI "CoAP sensor data sent successfully"])
        end
    end.

(** [coap_send_task(pv)] with [pv = {uri, payload}]. *)
Definition coap_send_task (pf : platform) (uri payload : option (list Z))
    (coap_buffer : list Z) : option (list event) :=
  let ready := wait_for_wifi pf 10000 in
  if negb ready.1 then
    Some (ready.2 ++ [EvLog LOGE "WiFi not connected, cannot send CoAP";
                      EvTaskDelete])
  else
    match coap_send_sensor_data pf uri payload coap_buffer with
    | Some trace => Some (ready.2 ++ trace ++ [EvTaskDelete])
    | None => None
    end.

(** The sockets a trace leaves open. *)
Fixpoint open_sockets (trace : list event) (opened : list Z) : list Z :=
  match trace with
  | [] => opened
  | EvSocket fd :: trace' =>
      open_sockets trace' (if fd <? 0 then opened else opened ++ [fd])
  | EvClose fd :: trace' =>
      open_sockets trace' (filter (fun x => x <> fd) opened)
  | _ :: trace' => open_sockets trace' opened
  end.

(** ** The option format in the words of the specification

    An option is one byte holding the delta in its high and the length in
    its low four bits; a delta or length of 13 to 268 puts 13 in its four
    bits and one more byte carrying the value minus 13; from 269 on it puts
    14 and two more bytes carrying the value minus 269, high byte first. *)

Definition escape_bytes (v : Z) : Z :=
  if v <? 13 then 0 else if v <? 269 then 1 else 2.

Definition extended_field (v : Z) : list Z :=
  if v <? 13 then []
  else if v <? 269 then [v - 13]
  else [(v - 269) / 256 mod 256; (v - 269) mod 256].

Definition nibble_field (v : Z) : Z :=
  if v <? 13 then v else if v <? 269 then 13 else 14.

Definition option_encoding (delta : Z) (value : list Z) : list Z :=
  [16 * nibble_field delta + nibble_field (strlen value)]
  ++ extended_field delta ++ extended_field (strlen value) ++ value.

(** Reading back the delta of the option that starts a byte sequence. *)
Definition decode_delta (bytes : list Z) : option Z :=
  match bytes with
  | b0 :: rest =>
      let d := b0 / 16 in
      if d <? 13 then Some d
      else if d =? 13 then
        match rest with
        | b1 :: _ => Some (13 + b1)
        | _ => None
        end
      else if d =? 14 then
        match rest with
        | b1 :: b2 :: _ => Some (269 + 256 * b1 + b2)
        | _ => None
        end
      else None
  | [] => None
  end.

(** ** The message layout in the words of the specification *)

(** The fields of a string between occurrences of the delimiter [d]. *)
Fixpoint split_on (d : Z) (s : list Z) : list (list Z) :=
  match s with
  | [] => [[]]
  | c :: s' =>
      if c =? d then [] :: split_on d s'
      else
        match split_on d s' with
        | field :: fields => (c :: field) :: fields
        | [] => [[c]]
        end
  end.

(** The segments of a path: its non-empty fields between slashes. *)
Definition path_segments (path : list Z) : list (list Z) :=
  filter (fun segment => segment <> []) (split_on 47 path).

(** The segments joined by single slashes. *)
Fixpoint join_segments (segments : list (list Z)) : list Z :=
  match segments with
  | [] => []
  | [segment] => segment
  | segment :: rest => segment ++ 47 :: join_segments rest
  end.

Definition simple_header : list Z := [0x40; 0x02; 0x12; 0x34].

(** One Uri-Path option of the simple encoder: delta in the high four bits
    (11 for the first option, 0 afterwards), length in the low four bits,
    then the segment. *)
Definition uri_path_option (first : bool) (segment : list Z) : list Z :=
  [16 * (if first then 11 else 0) + strlen segment] ++ segment.

Fixpoint uri_path_options (first : bool) (segments : list (list Z)) : list Z :=
  match segments with
  | [] => []
  | segment :: rest =>
      uri_path_option first segment ++ uri_path_options false rest
  end.

(** The Content-Format option as the simple encoder emits it: delta 1 and
    length 1 in the option byte, then the JSON code. *)
Definition content_format_option : list Z :=
  [16 * 1 + 1; COAP_CONTENT_FORMAT_JSON].




(** The bytes a payload adds to a message: none for an absent or empty
    one, else the marker and the payload. *)
Definition payload_count (payload : option (list Z)) : Z :=
  if strlen (deref payload) =? 0 then 0 else 1 + strlen (deref payload).

(** The segments the loop of the simple encoder has still to write when
    [strtok] has returned [segment] and has [saved] left to scan. *)
Definition pending (segment : option (list Z)) (saved : list Z)
  : list (list Z) :=
  match segment with
  | Some segment => segment :: path_segments saved
  | None => []
  end.

(** The time a trace spends in [vTaskDelay], in milliseconds. *)
Fixpoint elapsed_ms (trace : list event) : Z :=
  match trace with
  | [] => 0
  | EvTaskDelay ms :: trace' => ms + elapsed_ms trace'
  | _ :: trace' => elapsed_ms trace'
  end.

(** [n] rounds of the polling loop that find no network. *)
Definition idle_polls (n : nat) : list event :=
  concat (replicate n [EvApInfo false; EvTaskDelay 100]).

(** A platform whose [sendto] accepts three bytes of whatever it is given. *)
Definition short_send_platform : platform :=
  {| esp_wifi_sta_get_ap_info := fun _ => true;
     socket := 3;
     inet_pton := fun _ => 1;
     sendto := fun _ _ _ _ => 3 |}.

(** ** URIs in the words of the specification *)

(** The text [coap://h[:p]/seg1/.../segN[?q]]: [port_digits] and [q] are
    [None] when the part is absent. *)
Definition uri_text (h : list Z) (port_digits : option (list Z))
    (segments : list (list Z)) (q : option (list Z)) : list Z :=
  bytes_of_string "coap://" ++ h
  ++ match port_digits with
     | Some digits => 58 :: digits
     | None => []
     end
  ++ 47 :: join_segments segments
  ++ match q with
     | Some q => question_mark :: q
     | None => []
     end.

(** A host is not empty, has at most 63 bytes and holds neither [':'] nor
    ['/']. *)
Definition valid_host (h : list Z) : Prop :=
  h <> [] /\ (length h <= 63)%nat /\ Forall (fun c => mem c [58; 47] = false) h.

(** A port is a non-empty string of decimal digits denoting an [int]. *)
Definition valid_port (digits : list Z) : Prop :=
  digits <> [] /\ Forall (fun c => isdigit c = true) digits
  /\ digits_value digits <= INT_MAX.

(** A segment is not empty and holds no ['/'], no ['?'] and no white
    space. *)
Definition valid_segment (s : list Z) : Prop :=
  s <> [] /\ Forall (fun c => mem c (47 :: question_mark :: white_space) = false) s.

(** A query holds no white space. *)
Definition valid_query (q : list Z) : Prop :=
  Forall (fun c => mem c white_space = false) q.

(** An item that is an [int] holds a value of that type. *)
Definition int_item (it : item) : Prop :=
  match it with
  | IInt v => INT_MIN <= v <= INT_MAX
  | IStr _ => True
  end.

(** ** Sample inputs *)

(** Scenario A of the specification: the endpoint
    [coap://192.168.1.52:5683/sensor/send-data]. *)
Definition scenario_a_uri : coap_uri_t :=
  {| host := bytes_of_string "192.168.1.52"; port := 5683;
     path := bytes_of_string "sensor/send-data"; query := [] |}.

(** The payload of scenario A: an opening brace, the quoted key [t], a
    colon, the digit 1 and a closing brace. *)
Definition scenario_a_payload : list Z := [123; 34; 116; 34; 58; 49; 125].

(** A builder that holds a header in a buffer of 20 bytes and has appended
    option 12 last. *)
Definition sample_builder : coap_message_t :=
  {| msg_buffer := replicate 20 7; msg_length := 4; msg_capacity := 20;
     msg_last_option_number := 12 |}.

(** A platform on which the network never becomes ready. *)
Definition offline_platform : platform :=
  {| esp_wifi_sta_get_ap_info := fun _ => false;
     socket := 3;
     inet_pton := fun _ => 1;
     sendto := fun _ _ _ datagram => strlen datagram |}.

(** ** More of the message layout *)

(** What a payload contributes to a message: nothing when it is absent or
    empty, else the marker and the payload. *)
Definition payload_part (payload : option (list Z)) : list Z :=
  match payload with
  | Some (c :: rest) => COAP_PAYLOAD_MARKER :: c :: rest
  | _ => []
  end.

(** The message of the simple encoder for any payload. *)
Definition simple_message_of (segments : list (list Z))
    (payload : option (list Z)) : list Z :=
  simple_header ++ uri_path_options true segments ++ content_format_option
  ++ payload_part payload.

(** Reading an option back, after the wire format: the four bits of a
    field, extended by one byte (13) or two bytes (14); then the delta, the
    value and the bytes behind the option. *)
Definition decode_field (nibble : Z) (bytes : list Z) : option (Z * list Z) :=
  if nibble <? 13 then Some (nibble, bytes)
  else if nibble =? 13 then
    match bytes with
    | b :: rest => Some (13 + b, rest)
    | [] => None
    end
  else if nibble =? 14 then
    match bytes with
    | b1 :: b2 :: rest => Some (269 + 256 * b1 + b2, rest)
    | _ => None
    end
  else None.

Definition decode_option (bytes : list Z) : option (Z * list Z * list Z) :=
  match bytes with
  | [] => None
  | b0 :: rest =>
      match decode_field (b0 / 16) rest with
      | None => None
      | Some (delta, rest) =>
          match decode_field (b0 mod 16) rest with
          | None => None
          | Some (len, rest) =>
              if len <=? strlen rest
              then Some (delta, take (Z.to_nat len) rest,
                         drop (Z.to_nat len) rest)
              else None
          end
      end
  end.

(** The value a decoder reads from a delta or length field written for
    [v]: the two extension bytes hold [v - 269] modulo [2^16]. *)
Definition wire_value (v : Z) : Z :=
  if v <? 269 then v else 269 + (v - 269) mod 2 ^ 16.

(** ** The builder run over a whole message *)


(** One Uri-Path option per segment, appended with
    [coap_message_add_option] until one fails. *)
Fixpoint add_uri_path_options (msg : coap_message_t)
    (segments : list (list Z)) : bool * coap_message_t :=
  match segments with
  | [] => (true, msg)
  | segment :: rest =>
      let added :=
        coap_message_add_option msg COAP_OPTION_URI_PATH (Some segment)
          (strlen segment) in
      if added.1 then add_uri_path_options added.2 rest else added
  end.

(** The message of the simple encoder put together from the builder
    functions: header with the message id 0x1234, the Uri-Path options,
    the Content-Format option, the payload. *)
Definition build_with_builder (segments : list (list Z))
    (payload : option (list Z)) (buffer : list Z) (capacity : Z)
  : bool * coap_message_t :=
  let msg := coap_message_init buffer capacity in
  let headed := coap_message_add_header msg 0x1234 in
  if negb headed.1 then headed
  else
    let with_path := add_uri_path_options headed.2 segments in
    if negb with_path.1 then with_path
    else
      let with_format :=
        coap_message_add_option with_path.2 COAP_OPTION_CONTENT_FORMAT
          (Some [COAP_CONTENT_FORMAT_JSON]) 1 in
      if negb with_format.1 then with_format
      else coap_message_add_payload with_format.2 payload.

(** A buffer [b'] that differs from [b] only at indexes from [lo] up to,
    not including, [hi]. *)
Definition written_within (lo hi : Z) (b b' : list Z) : Prop :=
  length b' = length b
  /\ take (Z.to_nat lo) b' = take (Z.to_nat lo) b
  /\ drop (Z.to_nat hi) b' = drop (Z.to_nat hi) b.

(** ** Calls of the builder *)






(** ** What [sscanf] can assign *)

(** A string read by [%N[^...]]: not empty, at most [width] characters,
    none of them excluded. *)
Definition scanset_string (width : nat) (excluded s : list Z) : Prop :=
  s <> [] /\ (length s <= width)%nat
  /\ Forall (fun c => mem c excluded = false) s.

(** A string read by [%Ns]: at most [width] characters, none of them white
    space. *)
Definition word_string (width : nat) (s : list Z) : Prop :=
  (length s <= width)%nat /\ Forall (fun c => mem c white_space = false) s.

(** ** Traces *)

(** The events of the polling loop. *)
Definition polling_event (e : event) : Prop :=
  match e with
  | EvApInfo _ | EvTaskDelay _ => True
  | _ => False
  end.

(** ** The caller *)

(** The endpoint [app_main] sends to. *)
Definition app_main_uri : list Z :=
  bytes_of_string "coap://192.168.1.52:5683/sensor/send-data".

(** Number of [socket] calls in a trace. *)
Fixpoint socket_calls (trace : list event) : nat :=
  match trace with
  | [] => O
  | EvSocket _ :: trace' => S (socket_calls trace')
  | _ :: trace' => socket_calls trace'
  end.

(** Number of [sendto] calls in a trace. *)
Fixpoint sendto_calls (trace : list event) : nat :=
  match trace with
  | [] => O
  | EvSendto _ _ _ _ _ :: trace' => S (sendto_calls trace')
  | _ :: trace' => sendto_calls trace'
  end.

(** A [sendto] on a valid descriptor, to a 16-bit port, of a datagram that
    holds at least a header and the Content-Format option and at most the
    512 bytes of [coap_buffer]. *)
Definition sendto_in_bounds (e : event) : Prop :=
  match e with
  | EvSendto sock _ sin_port datagram _ =>
      0 <= sock /\ 0 <= sin_port < 2 ^ 16 /\ 6 <= strlen datagram <= 512
  | _ => True
  end.

(** ** Sample data *)

(** A platform that finds the network at the third poll. *)
Definition late_platform : platform :=
  {| esp_wifi_sta_get_ap_info := fun k => (2 <=? k)%nat;
     socket := 3;
     inet_pton := fun _ => 1;
     sendto := fun _ _ _ datagram => strlen datagram |}.



(** An option value of 70000 bytes and a builder that has room for it. *)
Definition long_value : list Z := replicate (Z.to_nat 70000) 0.

Definition long_builder : coap_message_t :=
  coap_message_init (replicate (Z.to_nat 70010) 7) 70010.

(** The run of [coap_send_task] on [short_send_platform] with the endpoint
    of [app_main] and the payload of scenario A. *)
Definition sample_task_trace : list event :=
  [EvApInfo true;
   EvLog LOGI "CoAP payload: %s";
   EvSocket 3;
   EvInetPton (bytes_of_string "192.168.1.52") 1;
   EvSendto 3 (bytes_of_string "192.168.1.52") 5683
     (simple_message_of [bytes_of_string "sensor"; bytes_of_string "send-data"]
        (Some scenario_a_payload)) 3;
   EvClose 3;
   EvLog LOGI
     "CoAP POST sent successfully to %s:%d (path: /%s, query: %s, %d bytes)";
   EvLog LOGI "CoAP sensor data sent successfully";
   EvTaskDelete].

(** * Properties *)

(** ** Machine integers and buffers *)

Lemma to_size_t_small z : 0 <= z < 2 ^ 32 -> to_size_t z = z.
Proof. intros H. unfold to_size_t. apply Z.mod_small. exact H. Qed.

Lemma to_uint16_small z : 0 <= z < 2 ^ 16 -> to_uint16 z = z.
Proof. intros H. unfold to_uint16. apply Z.mod_small. exact H. Qed.

Lemma to_uint8_small z : 0 <= z < 2 ^ 8 -> to_uint8 z = z.
Proof. intros H. unfold to_uint8. apply Z.mod_small. exact H. Qed.

(** Drops every [to_size_t] whose argument is seen to be in range,
    innermost first. *)
Ltac size_t_small :=
  repeat match goal with
         | |- context [to_size_t ?z] => rewrite (to_size_t_small z) by lia
         end.

(** Linear arithmetic under the wrap-around of the machine types. *)
Ltac wrap_lia :=
  unfold to_size_t, to_uint16, to_uint8 in *;
  change (2 ^ 32) with 4294967296 in *;
  change (2 ^ 16) with 65536 in *;
  change (2 ^ 8) with 256 in *;
  Z.div_mod_to_equations; lia.

Lemma land_0xFF z : Z.land z 0xFF = z mod 2 ^ 8.
Proof. change 0xFF with (Z.ones 8). apply Z.land_ones. lia. Qed.

Lemma lor_nibbles hi lo :
  0 <= hi -> 0 <= lo < 16 -> Z.lor (Z.shiftl hi 4) lo = 16 * hi + lo.
Proof.
  intros Hhi Hlo.
  assert (Z.land (Z.shiftl hi 4) lo = 0) as Hdisj.
  { apply Z.bits_inj'. intros n Hn.
    rewrite Z.land_spec, Z.bits_0.
    destruct (Z.lt_ge_cases n 4) as [Hlt | Hge].
    - rewrite Z.shiftl_spec_low by lia. reflexivity.
    - replace (Z.testbit lo n) with false; [apply andb_false_r|].
      symmetry. destruct (Z.eq_dec lo 0) as [-> | Hne]; [apply Z.bits_0|].
      apply Z.bits_above_log2; [lia|].
      apply Z.lt_le_trans with 4; [|lia].
      apply Z.log2_lt_pow2; lia. }
  rewrite <- Z.lxor_lor by exact Hdisj.
  rewrite <- Z.add_nocarry_lxor by exact Hdisj.
  rewrite Z.shiftl_mul_pow2 by lia. lia.
Qed.

(** Writing into a buffer split at the write index. *)
Lemma memcpy_at (w r src : list Z) (i n : Z) :
  i = Z.of_nat (length w) -> n = Z.of_nat (length src) ->
  (length src <= length r)%nat ->
  memcpy (w ++ r) i src n = w ++ src ++ drop (length src) r.
Proof.
  intros -> -> Hfit. unfold memcpy. rewrite !Nat2Z.id.
  rewrite firstn_all.
  replace (length w) with (length w + 0)%nat at 1 by lia.
  rewrite list_inserts_app_r. f_equal.
  rewrite <- (take_drop (length src) r) at 1.
  apply list_inserts_0_r. rewrite length_take. lia.
Qed.

Lemma store_at (w r : list Z) (i v : Z) :
  i = Z.of_nat (length w) -> (1 <= length r)%nat ->
  store (w ++ r) i v = w ++ [v] ++ drop 1 r.
Proof.
  intros Hi Hr.
  change (store (w ++ r) i v) with (memcpy (w ++ r) i [v] 1).
  apply memcpy_at; [exact Hi | reflexivity | exact Hr].
Qed.

(** ** The message builder *)

Lemma nibble_of_field v : 0 <= v -> nibble_of v = nibble_field v.
Proof.
  intros Hv. unfold nibble_of, nibble_field.
  destruct (v <? 13) eqn:E; [|reflexivity].
  apply to_uint8_small. lia.
Qed.

Lemma nibble_field_range v : 0 <= v -> 0 <= nibble_field v < 16.
Proof. intros Hv. unfold nibble_field. repeat case_match; lia. Qed.

Lemma length_extended_field v :
  Z.of_nat (length (extended_field v)) = escape_bytes v.
Proof. unfold extended_field, escape_bytes. repeat case_match; reflexivity. Qed.

(** [space_needed] is one byte, the escape bytes of delta and length, and
    the value. *)
Lemma option_space_needed_exact delta value_len :
  0 <= value_len -> value_len + 5 < 2 ^ 32 ->
  option_space_needed delta value_len
  = 1 + escape_bytes delta + escape_bytes value_len + value_len.
Proof.
  intros H0 Hmax. unfold option_space_needed, escape_bytes.
  destruct (delta >=? 13) eqn:E1, (delta >=? 269) eqn:E2,
    (value_len >=? 13) eqn:E3, (value_len >=? 269) eqn:E4;
    repeat case_match; try lia; wrap_lia.
Qed.

Lemma put_at c w r v :
  cur_buffer c = w ++ r -> cur_pos c = Z.of_nat (length w) ->
  (1 <= length r)%nat ->
  cur_buffer (put c v) = (w ++ [to_uint8 v]) ++ drop 1 r
  /\ cur_pos (put c v) = Z.of_nat (length (w ++ [to_uint8 v]))
  /\ cur_length (put c v) = cur_length c.
Proof.
  intros Hb Hp Hr. unfold put; simpl. rewrite Hb.
  rewrite (store_at w r) by assumption.
  rewrite length_app, <- app_assoc. simpl. repeat split; lia.
Qed.

(** The escape bytes written by [put_extended] for a value [v], given the
    two byte sources the caller computed from it. *)
Lemma put_extended_at c w r v ext8 ext16 :
  cur_buffer c = w ++ r -> cur_pos c = Z.of_nat (length w) ->
  0 <= v ->
  (13 <= v < 269 -> to_uint8 ext8 = v - 13) ->
  (269 <= v -> to_uint8 (Z.land (Z.shiftr ext16 8) 0xFF) = (v - 269) / 256 mod 256
               /\ to_uint8 (Z.land ext16 0xFF) = (v - 269) mod 256) ->
  escape_bytes v <= Z.of_nat (length r) ->
  0 <= cur_length c -> cur_length c + 2 < 2 ^ 32 ->
  let c' := put_extended c (nibble_of v) ext8 ext16 in
  cur_buffer c' = (w ++ extended_field v) ++ drop (length (extended_field v)) r
  /\ cur_pos c' = Z.of_nat (length (w ++ extended_field v))
  /\ cur_length c' = cur_length c + escape_bytes v.
Proof.
  intros Hb Hp Hv H8 H16 Hr Hl0 Hl1.
  unfold put_extended, extended_field, escape_bytes in *.
  rewrite nibble_of_field by exact Hv. unfold nibble_field.
  destruct (v <? 13) eqn:E13.
  - replace (v =? 13) with false by lia. replace (v =? 14) with false by lia.
    simpl. rewrite app_nil_r, drop_0. repeat split; [exact Hb | exact Hp | lia].
  - destruct (v <? 269) eqn:E269; simpl (_ =? _).
    + destruct (put_at c w r ext8 Hb Hp) as (B & P & L); [lia|].
      unfold advance; cbn [cur_buffer cur_pos cur_length].
      rewrite B, P, L, H8 by lia.
      rewrite to_size_t_small by lia. repeat split; reflexivity.
    + destruct H16 as [Hhi Hlo]; [lia|].
      destruct (put_at c w r (Z.land (Z.shiftr ext16 8) 255) Hb Hp) as (B & P & L);
        [lia|].
      destruct (put_at _ _ _ (Z.land ext16 255) B P) as (B' & P' & L').
      { rewrite length_drop. lia. }
      unfold advance; cbn [cur_buffer cur_pos cur_length].
      rewrite B', P', L', L.
      change 255 with 0xFF. rewrite Hhi, Hlo.
      rewrite drop_drop, <- !app_assoc. simpl.
      rewrite to_size_t_small by lia. repeat split; reflexivity.
Qed.

Section AddOption.

Variable msg : coap_message_t.
Variable option_number : Z.
Variable value : option (list Z).
Variable value_len : Z.

Let delta := to_uint16 (option_number - msg_last_option_number msg).
Let written := take (Z.to_nat value_len) (deref value).

Hypothesis length_nonneg : 0 <= msg_length msg.
Hypothesis value_readable : 0 <= value_len <= strlen (deref value).
Hypothesis no_wrap : msg_length msg + value_len + 5 < 2 ^ 32.

Lemma delta_range : 0 <= delta < 2 ^ 16.
Proof. unfold delta, to_uint16. apply Z.mod_pos_bound. lia. Qed.

Lemma strlen_written : strlen written = value_len.
Proof.
  unfold written, strlen in *. rewrite length_take. lia.
Qed.

Lemma space_needed_encoding :
  option_space_needed delta value_len
  = Z.of_nat (length (option_encoding delta written)).
Proof.
  rewrite option_space_needed_exact by lia.
  unfold option_encoding. rewrite strlen_written.
  rewrite !length_app. simpl length.
  pose proof (length_extended_field delta).
  pose proof (length_extended_field value_len).
  pose proof strlen_written as Hw. unfold strlen in Hw. lia.
Qed.

(** A call that fits writes the encoding of the option at [msg->length]
    and nothing else. *)
Lemma add_option_fits :
  msg_length msg + option_space_needed delta value_len <= msg_capacity msg ->
  msg_capacity msg <= Z.of_nat (length (msg_buffer msg)) ->
  coap_message_add_option msg option_number value value_len
  = (true,
     {| msg_buffer :=
          take (Z.to_nat (msg_length msg)) (msg_buffer msg)
          ++ option_encoding delta written
          ++ drop (Z.to_nat (msg_length msg
                             + option_space_needed delta value_len))
               (msg_buffer msg);
        msg_length := msg_length msg + option_space_needed delta value_len;
        msg_capacity := msg_capacity msg;
        msg_last_option_number := option_number |}).
Proof.
  intros Hfit Hcap.
  pose proof delta_range as Hd.
  pose proof space_needed_encoding as Henc.
  pose proof (option_space_needed_exact delta value_len) as Hexact.
  rewrite Hexact in * by lia.
  assert (0 <= escape_bytes delta <= 2 /\ 0 <= escape_bytes value_len <= 2)
    as [Hed Hel] by (unfold escape_bytes; repeat case_match; lia).
  unfold coap_message_add_option. fold delta.
  replace (is_null value && (value_len >? 0)) with false.
  2:{ destruct value; simpl in *; [reflexivity|].
      unfold strlen in value_readable. simpl in value_readable. lia. }
  rewrite Hexact by lia.
  rewrite to_size_t_small by lia.
  replace (_ >? msg_capacity msg) with false by lia.
  set (w := take (Z.to_nat (msg_length msg)) (msg_buffer msg)).
  set (r := drop (Z.to_nat (msg_length msg)) (msg_buffer msg)).
  assert (Z.of_nat (length w) = msg_length msg) as Hw
    by (unfold w; rewrite length_take; lia).
  assert (Z.of_nat (length r) = Z.of_nat (length (msg_buffer msg)) - msg_length msg)
    as Hr by (unfold r; rewrite length_drop; lia).
  set (c0 := {| cur_buffer := msg_buffer msg; cur_pos := msg_length msg;
                cur_length := msg_length msg |}).
  set (b0 := Z.lor (Z.shiftl (nibble_of delta) 4) (nibble_of value_len)).
  assert (to_uint8 b0 = 16 * nibble_field delta + nibble_field value_len) as Hb0.
  { unfold b0. rewrite !nibble_of_field by lia.
    pose proof (nibble_field_range delta ltac:(lia)).
    pose proof (nibble_field_range value_len ltac:(lia)).
    rewrite lor_nibbles by lia. apply to_uint8_small. lia. }
  destruct (put_at c0 w r b0) as (B1 & P1 & L1);
    [unfold c0, w, r; simpl; symmetry; apply take_drop | simpl; lia | lia |].
  set (c1 := advance (put c0 b0) 1).
  assert (cur_length c1 = msg_length msg + 1) as L1'
    by (unfold c1, advance; cbn [cur_length]; rewrite L1; simpl;
        apply to_size_t_small; lia).
  destruct (put_extended_at c1 _ _ delta
              (Z.land (delta - 13) 0xFF) (to_uint16 (delta - 269)) B1 P1)
    as (B2 & P2 & L2); try lia.
  { intros ?. rewrite land_0xFF. wrap_lia. }
  { intros ?. rewrite !land_0xFF, Z.shiftr_div_pow2 by lia. wrap_lia. }
  { rewrite length_drop. lia. }
  set (c2 := put_extended c1 _ _ _) in *.
  destruct (put_extended_at c2 _ _ value_len
              (Z.land (to_size_t (value_len - 13)) 0xFF)
              (to_uint16 (value_len - 269)) B2 P2)
    as (B3 & P3 & L3); try lia.
  { intros ?. rewrite land_0xFF. wrap_lia. }
  { intros ?. rewrite !land_0xFF, Z.shiftr_div_pow2 by lia. wrap_lia. }
  { rewrite !length_drop. pose proof (length_extended_field delta). lia. }
  set (c3 := put_extended c2 _ _ _) in *.
  pose proof (length_extended_field delta) as Hld.
  pose proof (length_extended_field value_len) as Hll.
  pose proof strlen_written as Hsw. unfold strlen in Hsw.
  assert (Z.to_nat (msg_length msg + (1 + escape_bytes delta
                                      + escape_bytes value_len + value_len))
          = (Z.to_nat (msg_length msg) + length (option_encoding delta written))%nat)
    as Hsplit by lia.
  rewrite Hsplit, <- drop_drop. fold r. fold w.
  unfold option_encoding. rewrite strlen_written.
  f_equal.
  destruct (value_len >? 0) eqn:Epos.
  - unfold advance; cbn [cur_buffer cur_length cur_pos].
    f_equal.
    + rewrite B3. unfold memcpy. fold written.
      replace (Z.to_nat (cur_pos c3))
        with (length (((w ++ [to_uint8 b0]) ++ extended_field delta)
                      ++ extended_field value_len) + 0)%nat by lia.
      rewrite list_inserts_app_r, Hb0, <- !app_assoc.
      do 4 f_equal.
      rewrite !drop_drop.
      set (rest := drop _ r).
      rewrite <- (take_drop (length written) rest) at 1.
      rewrite list_inserts_0_r.
      2:{ rewrite length_take. unfold rest. rewrite length_drop. lia. }
      f_equal. unfold rest. rewrite drop_drop. f_equal.
      rewrite !length_app. simpl. lia.
    + rewrite L3, L2, L1'. wrap_lia.
  - assert (value_len = 0) as Hz by lia.
    assert (written = []) as Hnil
      by (apply length_zero_iff_nil; lia).
    f_equal.
    + rewrite B3, Hb0, Hnil, <- !app_assoc, app_nil_l, !drop_drop.
      do 5 f_equal. rewrite !length_app. simpl. lia.
    + rewrite L3, L2, L1'. lia.
Qed.

(** A call that does not fit returns [false] and leaves the message as it
    was. *)
Lemma add_option_overflow :
  msg_capacity msg < msg_length msg + option_space_needed delta value_len ->
  coap_message_add_option msg option_number value value_len = (false, msg).
Proof.
  intros Hover.
  pose proof (option_space_needed_exact delta value_len) as Hexact.
  assert (0 <= escape_bytes delta <= 2 /\ 0 <= escape_bytes value_len <= 2)
    as [Hed Hel] by (unfold escape_bytes; repeat case_match; lia).
  unfold coap_message_add_option. fold delta.
  destruct (is_null value && (value_len >? 0)); [reflexivity|].
  rewrite to_size_t_small by lia.
  replace (_ >? msg_capacity msg) with true by lia. reflexivity.
Qed.

End AddOption.

(** Whatever the arguments, a [false] result comes with the message
    untouched. *)
Lemma add_option_false_unchanged msg option_number value value_len :
  (coap_message_add_option msg option_number value value_len).1 = false ->
  (coap_message_add_option msg option_number value value_len).2 = msg.
Proof.
  unfold coap_message_add_option.
  repeat case_match; simpl; intros; congruence.
Qed.

Section AddPayload.

Variable msg : coap_message_t.
Variable payload : list Z.

Hypothesis length_nonneg : 0 <= msg_length msg.
Hypothesis no_wrap : msg_length msg + strlen payload + 1 < 2 ^ 32.

Lemma add_payload_fits :
  payload <> [] ->
  msg_length msg + 1 + strlen payload <= msg_capacity msg ->
  msg_capacity msg <= Z.of_nat (length (msg_buffer msg)) ->
  coap_message_add_payload msg (Some payload)
  = (true,
     {| msg_buffer :=
          take (Z.to_nat (msg_length msg)) (msg_buffer msg)
          ++ [COAP_PAYLOAD_MARKER] ++ payload
          ++ drop (Z.to_nat (msg_length msg + 1 + strlen payload))
               (msg_buffer msg);
        msg_length := msg_length msg + 1 + strlen payload;
        msg_capacity := msg_capacity msg;
        msg_last_option_number := msg_last_option_number msg |}).
Proof.
  intros Hne Hfit Hcap. unfold coap_message_add_payload, strlen in *.
  assert (0 < length payload)%nat
    by (destruct payload; [congruence | simpl; lia]).
  replace (_ =? 0) with false by lia.
  size_t_small.
  replace (_ >? msg_capacity msg) with false by lia.
  do 2 f_equal.
  set (w := take (Z.to_nat (msg_length msg)) (msg_buffer msg)).
  set (r := drop (Z.to_nat (msg_length msg)) (msg_buffer msg)).
  assert (Z.of_nat (length w) = msg_length msg) as Hw
    by (unfold w; rewrite length_take; lia).
  assert (Z.of_nat (length r) = Z.of_nat (length (msg_buffer msg)) - msg_length msg)
    as Hr by (unfold r; rewrite length_drop; lia).
  rewrite <- (take_drop (Z.to_nat (msg_length msg)) (msg_buffer msg)) at 1.
  fold w r.
  rewrite (store_at w r) by lia.
  replace (w ++ [to_uint8 COAP_PAYLOAD_MARKER] ++ drop 1 r)
    with ((w ++ [COAP_PAYLOAD_MARKER]) ++ drop 1 r)
    by (rewrite <- app_assoc; reflexivity).
  rewrite memcpy_at.
  - rewrite <- app_assoc. do 3 f_equal. unfold r. rewrite !drop_drop.
    f_equal. lia.
  - rewrite length_app. simpl. lia.
  - reflexivity.
  - rewrite length_drop. lia.
Qed.

Lemma add_payload_overflow :
  payload <> [] ->
  msg_capacity msg < msg_length msg + 1 + strlen payload ->
  coap_message_add_payload msg (Some payload) = (false, msg).
Proof.
  intros Hne Hover. unfold coap_message_add_payload, strlen in *.
  assert (0 < length payload)%nat
    by (destruct payload; [congruence | simpl; lia]).
  replace (_ =? 0) with false by lia.
  size_t_small.
  replace (_ >? msg_capacity msg) with true by lia. reflexivity.
Qed.

End AddPayload.

Lemma lookup_outside_written (e buffer : list Z) (a i : nat) :
  (a + length e <= length buffer)%nat ->
  (i < a \/ a + length e <= i)%nat ->
  (take a buffer ++ e ++ drop (a + length e) buffer) !! i = buffer !! i.
Proof.
  intros Hlen [Hlt | Hge].
  - rewrite lookup_app_l by (rewrite length_take; lia).
    apply lookup_take_lt. lia.
  - rewrite lookup_app_r by (rewrite length_take; lia).
    rewrite length_take.
    rewrite lookup_app_r by lia.
    rewrite lookup_drop. f_equal. lia.
Qed.

Lemma add_payload_false_unchanged msg payload :
  (coap_message_add_payload msg payload).1 = false ->
  (coap_message_add_payload msg payload).2 = msg.
Proof.
  unfold coap_message_add_payload.
  repeat case_match; simpl; intros; congruence.
Qed.

(** C2. Each append of the message builder is all or nothing.  With
    [count] the exact number of bytes the append needs (for an option: the
    first byte, the escape bytes of delta and length, and the value; for a
    payload: the marker and the payload), a call that would carry
    [msg->length] beyond the capacity returns [false] and leaves length and
    buffer as they were; a call that fits returns [true], advances the length
    by [count] and changes no byte outside the [count] bytes it appends.
    Whenever a call returns [false], the message is as before. *)
Theorem builder_appends_are_atomic
    (msg : coap_message_t) (option_number : Z) (value : option (list Z))
    (value_len : Z) (payload : option (list Z)) :
  0 <= msg_length msg <= msg_capacity msg ->
  0 <= value_len <= strlen (deref value) ->
  msg_length msg + value_len + 5 < 2 ^ 32 ->
  msg_length msg + strlen (deref payload) + 1 < 2 ^ 32 ->
  let delta := to_uint16 (option_number - msg_last_option_number msg) in
  let count := 1 + escape_bytes delta + escape_bytes value_len + value_len in
  let added := coap_message_add_option msg option_number value value_len in
  let with_payload := coap_message_add_payload msg payload in
  let appended (n : Z) (r : bool * coap_message_t) :=
    r.1 = true
    /\ msg_length r.2 = msg_length msg + n
    /\ msg_capacity r.2 = msg_capacity msg
    /\ length (msg_buffer r.2) = length (msg_buffer msg)
    /\ forall i : nat,
         Z.of_nat i < msg_length msg \/ msg_length msg + n <= Z.of_nat i ->
         msg_buffer r.2 !! i = msg_buffer msg !! i in
  (option_space_needed delta value_len = count
   /\ (msg_capacity msg < msg_length msg + count -> added = (false, msg))
   /\ (msg_length msg + count <= msg_capacity msg ->
       msg_capacity msg <= Z.of_nat (length (msg_buffer msg)) ->
       appended count added))
  /\ ((msg_capacity msg < msg_length msg + payload_count payload ->
       with_payload = (false, msg))
      /\ (msg_length msg + payload_count payload <= msg_capacity msg ->
          msg_capacity msg <= Z.of_nat (length (msg_buffer msg)) ->
          appended (payload_count payload) with_payload))
  /\ (added.1 = false -> added.2 = msg)
  /\ (with_payload.1 = false -> with_payload.2 = msg).
Proof.
  intros [Hlen Hinv] Hval Hwrap Hwrap_p. cbv zeta.
  split; [|split; [|split;
    [apply add_option_false_unchanged | apply add_payload_false_unchanged]]].
  - pose proof (option_space_needed_exact
                  (to_uint16 (option_number - msg_last_option_number msg))
                  value_len ltac:(lia) ltac:(lia)) as Hexact.
    split; [exact Hexact|]. rewrite <- Hexact. split.
    + intros Hover. apply add_option_overflow; assumption.
    + intros Hfit Hcap.
      rewrite add_option_fits by assumption. cbn [fst snd msg_length
        msg_capacity msg_buffer].
      pose proof (space_needed_encoding msg option_number value value_len
                    Hlen Hval Hwrap) as Henc.
      assert (0 <= escape_bytes
                (to_uint16 (option_number - msg_last_option_number msg))
              /\ 0 <= escape_bytes value_len) as [? ?]
        by (unfold escape_bytes; repeat case_match; lia).
      rewrite Henc in *.
      replace (Z.to_nat (msg_length msg + Z.of_nat (length (option_encoding _ _))))
        with (Z.to_nat (msg_length msg) + length (option_encoding
                (to_uint16 (option_number - msg_last_option_number msg))
                (take (Z.to_nat value_len) (deref value))))%nat by lia.
      repeat split.
      * rewrite !length_app, length_take, length_drop. lia.
      * intros i Hi. apply lookup_outside_written; lia.
  - unfold payload_count.
    destruct payload as [p|]; cbn [deref] in *.
    2:{ simpl. split; [lia|]. intros _ _. repeat split; lia. }
    destruct p as [|c p].
    { simpl. split; [lia|]. intros _ _. repeat split; lia. }
    replace (strlen (c :: p) =? 0) with false
      by (symmetry; apply Z.eqb_neq; unfold strlen; simpl length; lia).
    split.
    + intros Hover. apply add_payload_overflow; [lia | lia | congruence | lia].
    + intros Hfit Hcap.
      rewrite add_payload_fits by (try congruence; lia).
      cbn [fst snd msg_length msg_capacity msg_buffer].
      unfold strlen in *.
      replace (Z.to_nat (msg_length msg + 1 + Z.of_nat (length (c :: p))))
        with (Z.to_nat (msg_length msg)
              + length ([COAP_PAYLOAD_MARKER] ++ c :: p))%nat
        by (simpl length; lia).
      rewrite (app_assoc [COAP_PAYLOAD_MARKER]).
      repeat split; try lia.
      * rewrite !length_app, length_take, length_drop. simpl length in *. lia.
      * intros i Hi. apply lookup_outside_written; simpl length in *; lia.
Qed.

(** The delta read back from an encoded option is the delta encoded. *)
Lemma decode_delta_encoding delta value rest :
  0 <= delta < 2 ^ 16 ->
  decode_delta (option_encoding delta value ++ rest) = Some delta.
Proof.
  intros Hd. unfold option_encoding, decode_delta. cbn [app].
  pose proof (nibble_field_range (strlen value)
                ltac:(unfold strlen; lia)) as Hl.
  assert ((16 * nibble_field delta + nibble_field (strlen value)) / 16
          = nibble_field delta) as ->.
  { rewrite Z.mul_comm, Z.div_add_l by lia.
    rewrite Z.div_small by lia. lia. }
  set (tail := extended_field (strlen value) ++ value).
  unfold nibble_field, extended_field.
  destruct (delta <? 13) eqn:E13.
  - rewrite E13. reflexivity.
  - destruct (delta <? 269) eqn:E269.
    + change (13 <? 13) with false. change (13 =? 13) with true.
      cbn [app]. f_equal. lia.
    + change (14 <? 13) with false. change (14 =? 13) with false.
      change (14 =? 14) with true. cbn [app]. f_equal.
      change (2 ^ 16) with 65536 in Hd.
      rewrite (Z.mod_small ((delta - 269) / 256)).
      * pose proof (Z.div_mod (delta - 269) 256 ltac:(lia)). lia.
      * split; [apply Z.div_pos; lia|].
        apply Z.div_lt_upper_bound; lia.
Qed.

(** C10. The option builder accepts an option number smaller than the last
    one appended: when the value fits the remaining capacity the call
    returns [true], records the new number, and the option it writes carries
    the delta [(n - L) mod 2^16] of the unsigned 16-bit subtraction, which
    here is [n - L + 65536]. *)
Theorem add_option_accepts_decreasing_number
    (msg : coap_message_t) (option_number : Z) (value : option (list Z))
    (value_len : Z) :
  0 <= msg_length msg ->
  0 <= value_len <= strlen (deref value) ->
  msg_length msg + value_len + 5 < 2 ^ 32 ->
  0 <= option_number < msg_last_option_number msg ->
  msg_last_option_number msg < 2 ^ 16 ->
  msg_length msg
  + option_space_needed
      (to_uint16 (option_number - msg_last_option_number msg)) value_len
  <= msg_capacity msg ->
  msg_capacity msg <= Z.of_nat (length (msg_buffer msg)) ->
  let added := coap_message_add_option msg option_number value value_len in
  let delta := (option_number - msg_last_option_number msg) mod 2 ^ 16 in
  added.1 = true
  /\ msg_last_option_number added.2 = option_number
  /\ decode_delta (drop (Z.to_nat (msg_length msg)) (msg_buffer added.2))
     = Some delta
  /\ delta = option_number - msg_last_option_number msg + 65536.
Proof.
  intros Hlen Hval Hwrap Hless Hlast Hfit Hcap. cbv zeta.
  rewrite add_option_fits by assumption.
  rewrite option_space_needed_exact in Hfit by lia.
  assert (0 <= escape_bytes
            (to_uint16 (option_number - msg_last_option_number msg))
          /\ 0 <= escape_bytes value_len) as [? ?]
    by (unfold escape_bytes; repeat case_match; lia).
  cbn [fst snd msg_buffer msg_last_option_number].
  repeat split.
  - rewrite drop_app_length'
      by (rewrite length_take; lia).
    apply decode_delta_encoding. apply Z.mod_pos_bound. lia.
  - change (2 ^ 16) with 65536 in *.
    symmetry. apply Z.mod_unique with (q := -1); lia.
Qed.

(** ** Path segments and [strtok] *)

Lemma mem_slash c : mem c slash = (c =? 47).
Proof. unfold mem, slash. simpl. apply orb_false_r. Qed.

Lemma split_on_strcspn s :
  split_on 47 s
  = take (strcspn s slash) s
    :: match drop (strcspn s slash) s with
       | [] => []
       | _ :: s' => split_on 47 s'
       end.
Proof.
  induction s as [|c s IH]; [reflexivity|].
  cbn [split_on strcspn]. rewrite mem_slash.
  destruct (c =? 47); [reflexivity|].
  rewrite IH. reflexivity.
Qed.

Lemma path_segments_nil : path_segments [] = [].
Proof. reflexivity. Qed.

Lemma path_segments_slash s : path_segments (47 :: s) = path_segments s.
Proof. reflexivity. Qed.

(** [strtok] returns the first segment of the text and keeps the text that
    holds the others. *)
Lemma strtok_pending s :
  pending (strtok None slash s).1 (strtok None slash s).2 = path_segments s.
Proof.
  induction s as [|c s IH]; [reflexivity|].
  destruct (c =? 47) eqn:E.
  - apply Z.eqb_eq in E. subst c. rewrite path_segments_slash, <- IH.
    reflexivity.
  - unfold strtok. cbn [strspn]. rewrite mem_slash, E. cbn [drop fst snd pending].
    unfold path_segments at 2. rewrite split_on_strcspn.
    cbn [strcspn]. rewrite mem_slash, E.
    rewrite filter_cons_True by (simpl; congruence).
    f_equal. cbn [drop].
    destruct (drop (strcspn s slash) s) as [|x s'] eqn:Ed.
    + rewrite (drop_ge s (S _)); [reflexivity|].
      apply (f_equal length) in Ed. rewrite length_drop in Ed. simpl in Ed. lia.
    + replace (drop (S (strcspn s slash)) s)
        with (drop 1 (drop (strcspn s slash) s))
        by (rewrite drop_drop; f_equal; lia).
      rewrite Ed. reflexivity.
Qed.

Lemma strtok_first_pending s saved :
  pending (strtok (Some s) slash saved).1 (strtok (Some s) slash saved).2
  = path_segments s.
Proof. apply (strtok_pending s). Qed.

Lemma path_segments_nonempty s :
  Forall (fun segment => segment <> []) (path_segments s).
Proof.
  apply Forall_forall. intros segment Hin.
  apply list_elem_of_filter in Hin. tauto.
Qed.

(** ** The segment loop of the simple encoder *)

Lemma segment_option_byte (first : bool) seg_len :
  0 <= seg_len <= 12 ->
  to_uint8 (Z.lor (if first then 0xB0 else 0x00) (to_uint8 seg_len))
  = 16 * (if first then 11 else 0) + seg_len.
Proof.
  intros H. rewrite (to_uint8_small seg_len) by lia.
  destruct first.
  - change 0xB0 with (Z.shiftl 11 4). rewrite lor_nibbles by lia.
    apply to_uint8_small. lia.
  - rewrite Z.lor_0_l. rewrite to_uint8_small; lia.
Qed.

Lemma length_uri_path_options_nonneg first segments :
  0 <= Z.of_nat (length (uri_path_options first segments)).
Proof. lia. Qed.

(** When the segments still to come are short and fit, the loop appends
    their options to what is written and returns the advanced index. *)
Lemma uri_path_loop_writes (rem : list (list Z)) :
  forall segment saved first pos w r buffer_size,
    pending segment saved = rem ->
    Forall (fun s => s <> [] /\ (length s <= 12)%nat) rem ->
    pos = Z.of_nat (length w) ->
    pos + Z.of_nat (length (uri_path_options first rem)) <= buffer_size ->
    buffer_size <= Z.of_nat (length (w ++ r)) ->
    buffer_size < 2 ^ 32 ->
    uri_path_loop segment saved first pos (w ++ r) buffer_size
    = (Some (pos + Z.of_nat (length (uri_path_options first rem))),
       w ++ uri_path_options first rem
         ++ drop (length (uri_path_options first rem)) r).
Proof.
  induction rem as [|seg rem IH];
    intros segment saved first pos w r buffer_size Hpend Hall Hpos Hfit Hbuf Hmax.
  - destruct segment as [segment|]; [discriminate|].
    rewrite uri_path_loop_equation_2. simpl. rewrite Z.add_0_r, drop_0.
    reflexivity.
  - destruct segment as [segment|]; [|discriminate].
    cbn [pending] in Hpend. injection Hpend as -> Hrest.
    apply Forall_cons in Hall as [[Hne Hshort] Hall].
    rewrite uri_path_loop_equation_1. cbv zeta. unfold strlen.
    assert (0 < length seg)%nat
      by (destruct seg; [congruence | simpl; lia]).
    cbn [uri_path_options] in *. unfold uri_path_option in *.
    rewrite !length_app in Hfit. cbn [length] in Hfit.
    rewrite length_app in Hbuf.
    replace (_ >? 0) with true by lia.
    replace (_ >? 12) with false by lia.
    size_t_small.
    replace (_ >? buffer_size) with false by lia.
    rewrite segment_option_byte by lia.
    rewrite (store_at w r) by lia.
    set (b := 16 * (if first then 11 else 0) + Z.of_nat (length seg)).
    replace (w ++ [b] ++ drop 1 r) with ((w ++ [b]) ++ drop 1 r)
      by (rewrite <- app_assoc; reflexivity).
    rewrite memcpy_at;
      [| rewrite length_app; simpl; lia | reflexivity
       | rewrite length_drop; lia].
    rewrite drop_drop.
    replace ((w ++ [b]) ++ seg ++ drop (1 + length seg) r)
      with ((w ++ [b] ++ seg) ++ drop (1 + length seg) r)
      by (rewrite <- !app_assoc; reflexivity).
    rewrite (IH _ _ false _ (w ++ [b] ++ seg) (drop (1 + length seg) r));
      try assumption.
    + unfold strlen. fold b. f_equal.
      * f_equal. rewrite !length_app. simpl length. lia.
      * rewrite <- !app_assoc. cbn [app]. do 3 f_equal.
        rewrite drop_drop. do 2 f_equal. simpl length.
        rewrite !length_app. lia.
    + rewrite strtok_pending. exact Hrest.
    + rewrite !length_app. simpl length. lia.
    + lia.
    + rewrite !length_app, length_drop. simpl length. lia.
Qed.

(** A pending segment of more than 12 bytes makes the loop return
    [false]. *)
Lemma uri_path_loop_rejects (rem : list (list Z)) :
  forall segment saved first pos buffer buffer_size,
    pending segment saved = rem ->
    Forall (fun s => s <> []) rem ->
    Exists (fun s => (12 < length s)%nat) rem ->
    (uri_path_loop segment saved first pos buffer buffer_size).1 = None.
Proof.
  induction rem as [|seg rem IH];
    intros segment saved first pos buffer buffer_size Hpend Hne Hex.
  - inversion Hex.
  - destruct segment as [segment|]; [|discriminate].
    cbn [pending] in Hpend. injection Hpend as -> Hrest.
    rewrite uri_path_loop_equation_1. cbv zeta. unfold strlen.
    apply Forall_cons in Hne as [Hne Hrem].
    assert (0 < length seg)%nat
      by (destruct seg; [congruence | simpl; lia]).
    replace (_ >? 0) with true by lia.
    destruct (Z.of_nat (length seg) >? 12) eqn:Elong; [reflexivity|].
    apply Exists_cons in Hex as [Hlong | Hex]; [lia|].
    destruct (_ >? buffer_size); [reflexivity|].
    apply IH; try assumption.
    rewrite strtok_pending. exact Hrest.
Qed.

(** ** [build_simple_coap_message] *)

Lemma header_stores buffer :
  (4 <= length buffer)%nat ->
  store (store (store (store buffer 0 0x40) 1 0x02) 2 0x12) 3 0x34
  = simple_header ++ drop 4 buffer.
Proof.
  intros H.
  rewrite (store_at [] buffer 0) by (simpl; lia).
  rewrite (store_at [0x40] (drop 1 buffer) 1) by (rewrite ?length_drop; simpl; lia).
  rewrite drop_drop.
  rewrite (store_at [0x40; 0x02] (drop (1 + 1) buffer) 2)
    by (rewrite ?length_drop; simpl; lia).
  rewrite drop_drop.
  rewrite (store_at [0x40; 0x02; 0x12] (drop (1 + 1 + 1) buffer) 3)
    by (rewrite ?length_drop; simpl; lia).
  rewrite drop_drop. reflexivity.
Qed.

(** The path part of the simple encoder, for a path of short segments
    that fit. *)
Lemma simple_path_part (path : list Z) (r : list Z) (buffer_size : Z) :
  (length path <= 63)%nat ->
  Forall (fun s => (length s <= 12)%nat) (path_segments path) ->
  let options := uri_path_options true (path_segments path) in
  4 + strlen options <= buffer_size ->
  buffer_size <= Z.of_nat (length (simple_header ++ r)) ->
  buffer_size < 2 ^ 32 ->
  (if strlen path >? 0 then
     uri_path_loop (strtok (Some (take 63 path)) slash []).1
       (strtok (Some (take 63 path)) slash []).2 true 4
       (simple_header ++ r) buffer_size
   else (Some 4, simple_header ++ r))
  = (Some (4 + strlen options),
     simple_header ++ options ++ drop (length options) r).
Proof.
  intros Hlen Hshort options Hfit Hbuf Hmax. unfold strlen in *.
  destruct (Z.of_nat (length path) >? 0) eqn:Epos.
  - rewrite take_ge by lia.
    apply uri_path_loop_writes; try assumption.
    + apply strtok_first_pending.
    + pose proof (path_segments_nonempty path) as Hne.
      rewrite Forall_forall in *. intros s Hs. split; auto.
    + reflexivity.
  - assert (path = []) as -> by (apply length_zero_iff_nil; lia).
    reflexivity.
Qed.



(** C6. A path with a segment of more than 12 bytes makes
    [build_simple_coap_message] return [false], whatever the payload, the
    buffer and its capacity; and [coap_send_sensor_data], given a URI that
    parses to such a path, logs the failure and makes no call to the socket
    layer: no message is handed to the transport. *)
Theorem build_simple_rejects_long_segment
    (uri : coap_uri_t) (payload : option (list Z)) (buffer : list Z)
    (buffer_size : Z) :
  (length (path uri) <= 63)%nat ->
  Exists (fun s => (12 < length s)%nat) (path_segments (path uri)) ->
  (build_simple_coap_message uri payload buffer buffer_size).1 = None
  /\ forall pf text content coap_buffer,
       parse_coap_uri (Some text) = ParseTrue uri ->
       coap_send_sensor_data pf (Some text) (Some content) coap_buffer
       = Some [EvLog LOGI "CoAP payload: %s";
               EvLog LOGE "Failed to build simple CoAP message"].
Proof.
  intros Hlen Hlong.
  assert (forall content buf size,
             (build_simple_coap_message uri content buf size).1 = None) as Hnone.
  { intros content buf size. unfold build_simple_coap_message. cbv zeta.
    destruct (_ >? size); [reflexivity|].
    assert (path uri <> []) as Hne
      by (intros E; rewrite E in Hlong; inversion Hlong).
    assert (0 < length (path uri))%nat
      by (destruct (path uri); [congruence | simpl; lia]).
    replace (strlen (path uri) >? 0) with true by (unfold strlen; lia).
    rewrite take_ge by lia.
    match goal with
    | |- context [uri_path_loop ?s ?sv ?f ?p ?b ?n] =>
        pose proof (uri_path_loop_rejects (path_segments (path uri))
                      s sv f p b n (strtok_first_pending _ _)
                      (path_segments_nonempty _) Hlong) as Hloop;
        destruct (uri_path_loop s sv f p b n) as [[pos|] b']
    end; [discriminate | reflexivity]. }
  split; [apply Hnone|].
  intros pf text content coap_buffer Hparse.
  unfold coap_send_sensor_data. cbn [is_null orb]. rewrite Hparse.
  specialize (Hnone (Some content) coap_buffer 512).
  destruct (build_simple_coap_message uri (Some content) coap_buffer 512)
    as [[len|] b]; [discriminate | reflexivity].
Qed.

(** ** The UDP transport *)

Lemma open_sockets_close_only fd :
  open_sockets [EvClose fd] [fd] = [].
Proof. simpl. rewrite filter_cons_False by (simpl; tauto). reflexivity. Qed.

(** C8. Once [socket] has succeeded, [send_coap_udp] closes the socket on
    each way out: after a failed address conversion, after a failed send and
    after a successful one.  The trace of the call shows the [close] in each
    case, and in each case no socket is left open. *)
Theorem send_coap_udp_closes_socket
    (pf : platform) (uri : coap_uri_t) (message : list Z) (message_len : Z) :
  0 <= socket pf ->
  let sock := socket pf in
  let converted := inet_pton pf (host uri) in
  let datagram := take (Z.to_nat message_len) message in
  let sent := sendto pf sock (host uri) (htons (port uri)) datagram in
  let r := send_coap_udp pf uri message message_len in
  open_sockets r.2 [] = []
  /\ (converted <= 0 ->
      r = (false, [EvSocket sock; EvInetPton (host uri) converted;
                   EvLog LOGE "Invalid IP address: %s"; EvClose sock]))
  /\ (0 < converted -> sent < 0 ->
      r = (false, [EvSocket sock; EvInetPton (host uri) converted;
                   EvSendto sock (host uri) (htons (port uri)) datagram sent;
                   EvClose sock; EvLog LOGE "Failed to send UDP packet"]))
  /\ (0 < converted -> 0 <= sent ->
      r = (true, [EvSocket sock; EvInetPton (host uri) converted;
                  EvSendto sock (host uri) (htons (port uri)) datagram sent;
                  EvClose sock;
                  EvLog LOGI
                    "CoAP POST sent successfully to %s:%d (path: /%s, query: %s, %d bytes)"])).
Proof.
  intros Hsock. cbv zeta. unfold send_coap_udp.
  replace (socket pf <? 0) with false by lia.
  destruct (inet_pton pf (host uri) <=? 0) eqn:Econv.
  - repeat split; try (intros; lia).
    cbn [app fst snd open_sockets].
    replace (socket pf <? 0) with false by lia.
    cbn [app]. apply open_sockets_close_only.
  - destruct (sendto pf (socket pf) (host uri) (htons (port uri))
                (take (Z.to_nat message_len) message) <? 0) eqn:Esent;
      (repeat split; try (intros; lia));
      cbn [app fst snd open_sockets];
      replace (socket pf <? 0) with false by lia;
      cbn [app]; rewrite filter_cons_False by (simpl; tauto); reflexivity.
Qed.

(** C4, as the code has it.  [send_coap_udp] returns [true] exactly when
    the socket was created, the address was converted and [sendto] returned
    a count that is not negative; the count is not compared with the number
    of bytes requested. *)
Theorem send_coap_udp_success_iff
    (pf : platform) (uri : coap_uri_t) (message : list Z) (message_len : Z) :
  (send_coap_udp pf uri message message_len).1 = true
  <-> 0 <= socket pf
      /\ 0 < inet_pton pf (host uri)
      /\ 0 <= sendto pf (socket pf) (host uri) (htons (port uri))
                (take (Z.to_nat message_len) message).
Proof.
  unfold send_coap_udp.
  destruct (socket pf <? 0) eqn:Es; cbn [fst].
  - split; [discriminate | lia].
  - destruct (inet_pton pf (host uri) <=? 0) eqn:Ec; cbn [fst].
    + split; [discriminate | lia].
    + destruct (sendto _ _ _ _ _ <? 0) eqn:Et; cbn [fst].
      * split; [discriminate | lia].
      * split; [lia | reflexivity].
Qed.

(** C4 as stated fails: a send that accepts 3 of 10 bytes is reported as
    success. *)
Lemma short_send_reported_as_success :
  let uri := {| host := bytes_of_string "10.0.0.5"; port := 5683;
                path := bytes_of_string "a"; query := [] |} in
  let message := replicate 10 0 in
  sendto short_send_platform 3 (host uri) (htons (port uri)) message = 3
  /\ 3 < strlen message
  /\ (send_coap_udp short_send_platform uri message 10).1 = true.
Proof. vm_compute. repeat split; reflexivity. Qed.

(** ** The dispatch task *)

Lemma wait_for_wifi_loop_step pf timeout_ms waited calls :
  wait_for_wifi_loop pf timeout_ms waited calls
  = if Z_lt_dec waited timeout_ms then
      if esp_wifi_sta_get_ap_info pf calls then (true, [EvApInfo true])
      else
        let r := wait_for_wifi_loop pf timeout_ms (waited + 100) (S calls) in
        (r.1, [EvApInfo false; EvTaskDelay 100] ++ r.2)
    else (false, []).
Proof.
  rewrite wait_for_wifi_loop_equation_1.
  destruct (Z_lt_dec waited timeout_ms); simp wait_for_wifi_loop; reflexivity.
Qed.

(** Without a network the loop runs its rounds to the end. *)
Lemma wait_for_wifi_loop_idle pf timeout_ms (n : nat) :
  (forall k, esp_wifi_sta_get_ap_info pf k = false) ->
  forall waited calls,
    timeout_ms <= waited + 100 * Z.of_nat n ->
    (n <> 0%nat -> waited + 100 * (Z.of_nat n - 1) < timeout_ms) ->
    wait_for_wifi_loop pf timeout_ms waited calls = (false, idle_polls n).
Proof.
  intros Hidle. induction n as [|n IH]; intros waited calls Hup Hlow.
  - rewrite wait_for_wifi_loop_step.
    destruct (Z_lt_dec waited timeout_ms); [lia | reflexivity].
  - rewrite wait_for_wifi_loop_step.
    destruct (Z_lt_dec waited timeout_ms); [|lia].
    rewrite Hidle. cbv zeta. rewrite IH by lia. reflexivity.
Qed.

Lemma elapsed_idle_polls n : elapsed_ms (idle_polls n) = 100 * Z.of_nat n.
Proof.
  induction n as [|n IH]; [reflexivity|].
  change (idle_polls (S n))
    with (EvApInfo false :: EvTaskDelay 100 :: idle_polls n).
  cbn [elapsed_ms]. lia.
Qed.

(** C7. When the network never becomes ready, [wait_for_wifi(10000)]
    returns [false] after 100 polls, each followed by a delay of 100 ms,
    10 s in all; [coap_send_task] then logs that Wi-Fi is not connected and
    deletes itself.  Its trace holds nothing else, whatever the URI, the
    payload and the buffer are: the URI is not parsed, no message is built,
    no socket is opened. *)
Theorem task_gives_up_without_network
    (pf : platform) (uri payload : option (list Z)) (coap_buffer : list Z) :
  (forall k, esp_wifi_sta_get_ap_info pf k = false) ->
  wait_for_wifi pf 10000 = (false, idle_polls 100)
  /\ elapsed_ms (idle_polls 100) = 10000
  /\ coap_send_task pf uri payload coap_buffer
     = Some (idle_polls 100
             ++ [EvLog LOGE "WiFi not connected, cannot send CoAP";
                 EvTaskDelete])
  /\ Forall (fun e => match e with
                      | EvSocket _ | EvInetPton _ _ | EvSendto _ _ _ _ _
                      | EvClose _ => False
                      | _ => True
                      end)
       (idle_polls 100
        ++ [EvLog LOGE "WiFi not connected, cannot send CoAP"; EvTaskDelete]).
Proof.
  intros Hidle.
  assert (wait_for_wifi pf 10000 = (false, idle_polls 100)) as Hwait
    by (apply wait_for_wifi_loop_idle; [exact Hidle | lia | lia]).
  repeat split.
  - exact Hwait.
  - unfold coap_send_task. rewrite Hwait. reflexivity.
  - vm_compute. repeat constructor.
Qed.

(** ** [sscanf] on a well-formed URI *)

Lemma strcspn_app s rest reject :
  Forall (fun c => mem c reject = false) s ->
  match rest with
  | [] => True
  | c :: _ => mem c reject = true
  end ->
  strcspn (s ++ rest) reject = length s.
Proof.
  intros Hs Hrest. induction Hs as [|c s Hc Hs IH]; cbn [app strcspn length].
  - destruct rest as [|c rest]; [reflexivity|]. cbn [strcspn].
    rewrite Hrest. reflexivity.
  - rewrite Hc, IH. reflexivity.
Qed.

Lemma strspn_head_outside c s accept :
  mem c accept = false -> strspn (c :: s) accept = 0%nat.
Proof. intros H. cbn [strspn]. rewrite H. reflexivity. Qed.

Lemma sscanf_run_literal lit format input assigned :
  sscanf_run (map DChar lit ++ format) (lit ++ input) assigned
  = sscanf_run format input assigned.
Proof.
  induction lit as [|c lit IH]; [reflexivity|].
  cbn [map app sscanf_run scan_directive].
  rewrite Z.eqb_refl, app_nil_r. exact IH.
Qed.

Lemma scan_char_match c rest :
  scan_directive (DChar c) (c :: rest) = Matched [] rest.
Proof. cbn [scan_directive]. rewrite Z.eqb_refl. reflexivity. Qed.

Lemma scan_char_mismatch c x rest :
  x <> c -> scan_directive (DChar c) (x :: rest) = MatchingFailure.
Proof.
  intros H. cbn [scan_directive].
  replace (x =? c) with false by lia. reflexivity.
Qed.

Lemma scan_scanset_field width excluded s rest :
  s <> [] -> (length s <= width)%nat ->
  Forall (fun c => mem c excluded = false) s ->
  match rest with
  | [] => True
  | c :: _ => mem c excluded = true
  end ->
  scan_directive (DScanset width excluded) (s ++ rest) = Matched [IStr s] rest.
Proof.
  intros Hne Hlen Hs Hrest. cbn [scan_directive].
  rewrite strcspn_app by assumption.
  assert (0 < length s)%nat by (destruct s; [congruence | simpl; lia]).
  rewrite Nat.min_r by lia.
  destruct (s ++ rest) eqn:E.
  { apply (f_equal length) in E. rewrite length_app in E. simpl in E. lia. }
  rewrite <- E.
  rewrite (proj2 (Nat.eqb_neq (length s) 0)) by lia.
  rewrite take_app_length, drop_app_length. reflexivity.
Qed.

Lemma scan_string_rest width s :
  s <> [] -> (length s <= width)%nat ->
  Forall (fun c => mem c white_space = false) s ->
  scan_directive (DString width) s = Matched [IStr s] [].
Proof.
  intros Hne Hlen Hs. cbn [scan_directive].
  destruct s as [|c s]; [congruence|].
  rewrite strspn_head_outside by (apply Forall_cons in Hs; tauto).
  cbn [drop].
  pose proof (strcspn_app (c :: s) [] white_space Hs I) as Hspan.
  rewrite app_nil_r in Hspan. rewrite Hspan.
  rewrite Nat.min_r by lia.
  rewrite firstn_all, drop_all. reflexivity.
Qed.

Lemma digits_len_app digits rest :
  Forall (fun c => isdigit c = true) digits ->
  match rest with
  | [] => True
  | c :: _ => isdigit c = false
  end ->
  digits_len (digits ++ rest) = length digits.
Proof.
  intros Hd Hrest. induction Hd as [|c s Hc Hs IH]; cbn [app digits_len length].
  - destruct rest as [|c rest]; [reflexivity|]. cbn [digits_len].
    rewrite Hrest. reflexivity.
  - rewrite Hc, IH. reflexivity.
Qed.

Lemma digits_value_from acc digits :
  Forall (fun c => isdigit c = true) digits -> 0 <= acc ->
  0 <= fold_left (fun acc c => 10 * acc + (c - 48)) digits acc.
Proof.
  intros Hd. revert acc.
  induction Hd as [|c s Hc Hs IH]; intros acc Hacc; cbn [fold_left]; [lia|].
  apply IH. unfold isdigit in Hc. lia.
Qed.

Lemma digits_value_nonneg digits :
  Forall (fun c => isdigit c = true) digits -> 0 <= digits_value digits.
Proof. intros Hd. apply digits_value_from; [exact Hd | lia]. Qed.

Lemma scan_int_digits digits rest :
  valid_port digits ->
  match rest with
  | [] => True
  | c :: _ => isdigit c = false
  end ->
  scan_directive DInt (digits ++ rest)
  = Matched [IInt (digits_value digits)] rest.
Proof.
  intros (Hne & Hd & Hmax) Hrest. cbn [scan_directive]. unfold scan_int.
  destruct digits as [|d digits]; [congruence|].
  pose proof Hd as Hd'. apply Forall_cons in Hd' as [Hd0 _].
  assert (mem d white_space = false /\ (d =? 45) = false /\ (d =? 43) = false)
    as (Hw & Hminus & Hplus).
  { unfold isdigit in Hd0. unfold mem, white_space. cbn [existsb].
    repeat split; lia. }
  cbn [app]. rewrite strspn_head_outside by exact Hw. cbn [drop].
  rewrite Hminus, Hplus. cbn [orb].
  change (d :: digits ++ rest) with ((d :: digits) ++ rest).
  rewrite digits_len_app by assumption.
  cbn [length Nat.eqb].
  change (S (length digits)) with (length (d :: digits)).
  rewrite take_app_length, drop_app_length.
  pose proof (digits_value_nonneg (d :: digits) Hd).
  unfold to_int_saturated, INT_MIN, INT_MAX in *.
  do 2 f_equal. f_equal. lia.
Qed.

(** ** Paths made of segments *)

Lemma split_on_field s rest :
  Forall (fun c => mem c slash = false) s ->
  split_on 47 (s ++ 47 :: rest) = s :: split_on 47 rest.
Proof.
  intros Hs. rewrite split_on_strcspn.
  rewrite strcspn_app by (try assumption; reflexivity).
  rewrite take_app_length, drop_app_length. reflexivity.
Qed.

Lemma split_on_last s :
  Forall (fun c => mem c slash = false) s -> split_on 47 s = [s].
Proof.
  intros Hs. rewrite split_on_strcspn.
  pose proof (strcspn_app s [] slash Hs I) as Hspan.
  rewrite app_nil_r in Hspan. rewrite Hspan.
  rewrite firstn_all, drop_all. reflexivity.
Qed.

Lemma valid_segment_no_slash s :
  valid_segment s -> Forall (fun c => mem c slash = false) s.
Proof.
  intros [_ Hs]. eapply Forall_impl; [exact Hs|].
  intros c Hc. cbn beta in Hc. unfold mem, slash in *. cbn [existsb] in *.
  apply orb_false_iff in Hc as [Hc _]. rewrite Hc. reflexivity.
Qed.

Lemma valid_segment_path_char c s :
  valid_segment s -> c ∈ s -> mem c (question_mark :: white_space) = false.
Proof.
  intros [_ Hs] Hin. rewrite Forall_forall in Hs. specialize (Hs c Hin).
  unfold mem in *. cbn [existsb] in *.
  apply orb_false_iff in Hs as [_ Hs]. exact Hs.
Qed.

(** Joining valid segments and splitting the path gives the segments
    back. *)
Lemma path_segments_join segments :
  Forall valid_segment segments ->
  path_segments (join_segments segments) = segments.
Proof.
  induction 1 as [|s rest Hs Hrest IH]; [reflexivity|].
  pose proof (valid_segment_no_slash s Hs) as Hslash.
  destruct Hs as [Hne _].
  destruct rest as [|s' rest].
  - cbn [join_segments]. unfold path_segments.
    rewrite split_on_last by assumption.
    rewrite filter_cons_True by exact Hne. reflexivity.
  - change (join_segments (s :: s' :: rest))
      with (s ++ 47 :: join_segments (s' :: rest)).
    unfold path_segments in *. rewrite split_on_field by assumption.
    rewrite filter_cons_True by exact Hne. rewrite IH. reflexivity.
Qed.

Lemma join_segments_chars segments :
  Forall valid_segment segments ->
  Forall (fun c => mem c (question_mark :: white_space) = false)
    (join_segments segments).
Proof.
  induction 1 as [|s rest Hs Hrest IH]; [constructor|].
  assert (Forall (fun c => mem c (question_mark :: white_space) = false) s)
    as Hchars
    by (apply Forall_forall; intros c Hc;
        eapply valid_segment_path_char; eauto).
  destruct rest as [|s' rest]; [exact Hchars|].
  change (join_segments (s :: s' :: rest))
    with (s ++ 47 :: join_segments (s' :: rest)).
  apply Forall_app. split; [exact Hchars|].
  apply Forall_cons. split; [reflexivity | exact IH].
Qed.

Lemma join_segments_nonempty segments :
  segments <> [] -> Forall valid_segment segments ->
  join_segments segments <> [].
Proof.
  intros Hne Hall. destruct Hall as [|s rest [Hs _] _]; [congruence|].
  destruct rest; cbn [join_segments]; [exact Hs|].
  destruct s; [congruence | discriminate].
Qed.

(** ** Splitting path and query *)

Lemma strchr_found s rest c :
  Forall (fun x => x <> c) s -> strchr (s ++ c :: rest) c = Some (length s).
Proof.
  induction 1 as [|x s Hx Hs IH]; cbn [app strchr length].
  - rewrite Z.eqb_refl. reflexivity.
  - replace (x =? c) with false by lia. rewrite IH. reflexivity.
Qed.

Lemma strchr_absent s c :
  Forall (fun x => x <> c) s -> strchr s c = None.
Proof.
  induction 1 as [|x s Hx Hs IH]; cbn [strchr]; [reflexivity|].
  replace (x =? c) with false by lia. rewrite IH. reflexivity.
Qed.

Lemma path_without_question_mark segments :
  Forall valid_segment segments ->
  Forall (fun x => x <> question_mark) (join_segments segments).
Proof.
  intros Hall. eapply Forall_impl; [apply join_segments_chars, Hall|].
  intros c Hc. cbn beta in Hc. unfold mem in Hc. cbn [existsb] in Hc.
  apply orb_false_iff in Hc as [Hc _]. lia.
Qed.

Section ParseValidUri.

Variable h : list Z.
Variable segments : list (list Z).
Variable q : option (list Z).

Hypothesis host_ok : valid_host h.
Hypothesis segments_ok : segments <> [] /\ Forall valid_segment segments.
Hypothesis path_fits : (length (join_segments segments) <= 63)%nat.
Hypothesis query_ok : valid_query (deref q) /\ (length (deref q) <= 63)%nat.

Let path_and_query : list Z :=
  join_segments segments
  ++ match q with
     | Some q => question_mark :: q
     | None => []
     end.

Lemma path_and_query_scanned :
  scan_directive (DString 127) path_and_query
  = Matched [IStr path_and_query] [].
Proof.
  destruct segments_ok as [Hne Hall]. destruct query_ok as [Hq Hqlen].
  apply scan_string_rest.
  - unfold path_and_query. intros E. apply app_eq_nil in E as [E _].
    revert E. apply join_segments_nonempty; assumption.
  - unfold path_and_query. rewrite length_app.
    destruct q; cbn [deref length] in *; lia.
  - unfold path_and_query. apply Forall_app. split.
    + eapply Forall_impl; [apply join_segments_chars, Hall|].
      intros c Hc. cbn beta in Hc. unfold mem in *. cbn [existsb] in *.
      apply orb_false_iff in Hc as [_ Hc]. exact Hc.
    + destruct q; cbn [deref] in *; [|constructor].
      apply Forall_cons. split; [reflexivity | exact Hq].
Qed.

Lemma host_no_slash : Forall (fun c => mem c [47] = false) h.
Proof.
  destruct host_ok as (_ & _ & Hh). eapply Forall_impl; [exact Hh|].
  intros c Hc. cbn beta in Hc. unfold mem in *. cbn [existsb] in *.
  apply orb_false_iff in Hc as [_ Hc]. exact Hc.
Qed.

Lemma sscanf_with_port digits :
  valid_port digits ->
  sscanf (uri_text h (Some digits) segments q) format_host_port_path
  = (3, [IStr h; IInt (digits_value digits); IStr path_and_query]).
Proof.
  intros Hport. destruct host_ok as (Hne & Hlen & Hh).
  unfold sscanf, uri_text, format_host_port_path.
  rewrite sscanf_run_literal. cbn [sscanf_run app].
  rewrite scan_scanset_field by (try assumption; reflexivity).
  rewrite scan_char_match.
  change (58 :: digits ++ 47 :: ?x) with (58 :: (digits ++ 47 :: x)).
  rewrite scan_int_digits by (try assumption; reflexivity).
  rewrite scan_char_match. fold path_and_query.
  rewrite path_and_query_scanned. reflexivity.
Qed.

Lemma sscanf_without_port_first :
  sscanf (uri_text h None segments q) format_host_port_path = (1, [IStr h]).
Proof.
  destruct host_ok as (Hne & Hlen & Hh).
  unfold sscanf, uri_text, format_host_port_path.
  rewrite sscanf_run_literal. cbn [sscanf_run app].
  rewrite scan_scanset_field by (try assumption; reflexivity).
  rewrite scan_char_mismatch by lia. reflexivity.
Qed.

Lemma sscanf_without_port_second :
  sscanf (uri_text h None segments q) format_host_path
  = (2, [IStr h; IStr path_and_query]).
Proof.
  destruct host_ok as (Hne & Hlen & Hh).
  unfold sscanf, uri_text, format_host_path.
  rewrite sscanf_run_literal. cbn [sscanf_run app].
  rewrite scan_scanset_field
    by (try assumption; try reflexivity; apply host_no_slash).
  rewrite scan_char_match. fold path_and_query.
  rewrite path_and_query_scanned. reflexivity.
Qed.

(** The split at the first ['?'] of the scanned text. *)
Lemma path_and_query_split host0 port0 :
  match strchr path_and_query question_mark with
  | Some path_len =>
      if (63 <? path_len)%nat then ParseOverrun
      else
        ParseTrue
          {| host := host0; port := port0;
             path := take path_len path_and_query;
             query := take 63 (drop (S path_len) path_and_query) |}
  | None =>
      ParseTrue
        {| host := host0; port := port0;
           path := take 63 path_and_query; query := [] |}
  end
  = ParseTrue {| host := host0; port := port0;
                 path := join_segments segments; query := deref q |}.
Proof.
  destruct segments_ok as [Hne Hall]. destruct query_ok as [Hq Hqlen].
  pose proof (path_without_question_mark segments Hall) as Hpath.
  unfold path_and_query. destruct q as [query0|]; cbn [deref] in *.
  - rewrite strchr_found by exact Hpath.
    rewrite (proj2 (Nat.ltb_ge 63 _)) by lia.
    rewrite take_app_length.
    replace (S (length (join_segments segments)))
      with (length (join_segments segments ++ [question_mark]))
      by (rewrite length_app; simpl; lia).
    replace (join_segments segments ++ question_mark :: query0)
      with ((join_segments segments ++ [question_mark]) ++ query0)
      by (rewrite <- app_assoc; reflexivity).
    rewrite drop_app_length, take_ge by lia. reflexivity.
  - rewrite app_nil_r. rewrite strchr_absent by exact Hpath.
    rewrite take_ge by lia. reflexivity.
Qed.

End ParseValidUri.

(** C3. For a host [h] of at most 63 bytes without [':'] and ['/'], an
    optional port written as decimal digits, one or more non-empty segments
    free of ['/'], ['?'] and white space whose path [seg1/.../segN] has at
    most 63 bytes, and an optional query of at most 63 bytes without white
    space, [parse_coap_uri] accepts [coap://h[:p]/seg1/.../segN[?q]] and
    returns host [h], the port denoted by the digits or 5683 without a port,
    the path [seg1/.../segN], which splits into exactly the segments, and
    the query [q], empty when there is none. *)
Theorem parse_coap_uri_recovers_components
    (h : list Z) (port_digits : option (list Z))
    (segments : list (list Z)) (q : option (list Z)) :
  valid_host h ->
  match port_digits with
  | Some digits => valid_port digits
  | None => True
  end ->
  segments <> [] /\ Forall valid_segment segments ->
  (length (join_segments segments) <= 63)%nat ->
  valid_query (deref q) /\ (length (deref q) <= 63)%nat ->
  parse_coap_uri (Some (uri_text h port_digits segments q))
  = ParseTrue
      {| host := h;
         port := match port_digits with
                 | Some digits => digits_value digits
                 | None => 5683
                 end;
         path := join_segments segments;
         query := deref q |}
  /\ path_segments (join_segments segments) = segments.
Proof.
  intros Hhost Hport Hsegs Hpath Hquery.
  split; [|apply path_segments_join; tauto].
  unfold parse_coap_uri. cbv zeta.
  destruct port_digits as [digits|].
  - rewrite (sscanf_with_port h segments q) by assumption.
    cbn [fst snd assigned_str assigned_int lookup list_lookup].
    change (3 <? 2) with false. cbv iota.
    apply path_and_query_split; assumption.
  - rewrite (sscanf_without_port_first h segments q) by assumption.
    cbn [fst snd assigned_str assigned_int lookup list_lookup].
    change (1 <? 2) with true. cbv iota.
    rewrite (sscanf_without_port_second h segments q) by assumption.
    cbn [fst snd assigned_str assigned_int lookup list_lookup].
    change (2 <? 2) with false. cbv iota.
    apply path_and_query_split; assumption.
Qed.

(** ** The port *)

Lemma scan_directive_int_items d input items rest :
  scan_directive d input = Matched items rest -> Forall int_item items.
Proof.
  destruct d as [c | width excluded | | width]; cbn [scan_directive].
  - destruct input as [|x input]; [discriminate|].
    destruct (x =? c); [|discriminate]. intros [= <- _]. constructor.
  - destruct input as [|x input]; [discriminate|].
    destruct (_ =? _)%nat; [discriminate|].
    intros [= <- _]. repeat constructor.
  - unfold scan_int.
    destruct (drop _ input) as [|c after]; [discriminate|].
    destruct (_ =? _)%nat; [discriminate|].
    intros [= <- _]. repeat constructor;
      unfold to_int_saturated, INT_MIN, INT_MAX; lia.
  - destruct (drop _ input) as [|c after]; [discriminate|].
    intros [= <- _]. repeat constructor.
Qed.

Lemma sscanf_run_int_items format :
  forall input assigned,
    Forall int_item assigned ->
    Forall int_item (sscanf_run format input assigned).2.
Proof.
  induction format as [|d format IH]; intros input assigned Hall;
    cbn [sscanf_run]; [exact Hall|].
  destruct (scan_directive d input) as [items rest| |] eqn:E;
    cbn [snd]; try exact Hall.
  apply IH, Forall_app. split; [exact Hall|].
  eapply scan_directive_int_items, E.
Qed.

Lemma assigned_int_range items i old :
  Forall int_item items -> INT_MIN <= old <= INT_MAX ->
  INT_MIN <= assigned_int items i old <= INT_MAX.
Proof.
  intros Hall Hold. unfold assigned_int.
  destruct (items !! i) as [[s|v]|] eqn:E; try exact Hold.
  rewrite Forall_forall in Hall.
  apply (Hall (IInt v)). eapply list_elem_of_lookup_2, E.
Qed.

Lemma parsed_port_range uri parsed :
  parse_coap_uri uri = ParseTrue parsed -> INT_MIN <= port parsed <= INT_MAX.
Proof.
  unfold parse_coap_uri. destruct uri as [text|]; [|discriminate]. cbv zeta.
  pose proof (assigned_int_range (sscanf text format_host_port_path).2 1 5683
                (sscanf_run_int_items _ _ [] (Forall_nil_2 _))
                ltac:(unfold INT_MIN, INT_MAX; lia)) as Hport.
  set (p := assigned_int _ 1 5683) in *.
  assert (INT_MIN <= 5683 <= INT_MAX) as Hdefault
    by (unfold INT_MIN, INT_MAX; lia).
  destruct (_ <? 2).
  - destruct (_ <? 2); [discriminate|].
    destruct (strchr _ _) as [n|]; [destruct (63 <? n)%nat; [discriminate|]|];
      intros [= <-]; exact Hdefault.
  - destruct (strchr _ _) as [n|]; [destruct (63 <? n)%nat; [discriminate|]|];
      intros [= <-]; exact Hport.
Qed.

(** C9 as stated fails: a port of 70000 is accepted as it is. *)
Lemma port_70000_accepted :
  parse_coap_uri (Some (bytes_of_string "coap://10.0.0.5:70000/a"))
  = ParseTrue {| host := bytes_of_string "10.0.0.5"; port := 70000;
                 path := bytes_of_string "a"; query := [] |}
  /\ ~ (0 <= 70000 <= 65535).
Proof. split; [vm_compute; reflexivity | lia]. Qed.

(** C9, as the code has it.  The port of an accepted URI is an [int]; it is
    not checked against the 16-bit range.  [send_coap_udp] converts it with
    [htons], so that the port of the destination, which every [sendto] of
    the call uses, is the port modulo [2^16]. *)
Theorem parsed_port_is_int_reduced_on_send
    (uri : option (list Z)) (parsed : coap_uri_t) :
  parse_coap_uri uri = ParseTrue parsed ->
  INT_MIN <= port parsed <= INT_MAX
  /\ htons (port parsed) = port parsed mod 2 ^ 16
  /\ 0 <= htons (port parsed) <= 65535
  /\ forall pf message message_len,
       Forall (fun e => match e with
                        | EvSendto _ _ sin_port _ _ =>
                            sin_port = htons (port parsed)
                        | _ => True
                        end)
         (send_coap_udp pf parsed message message_len).2.
Proof.
  intros Hparse. split; [eapply parsed_port_range, Hparse|].
  split; [reflexivity|]. split.
  - unfold htons, to_uint16.
    pose proof (Z.mod_pos_bound (port parsed) (2 ^ 16) ltac:(lia)). lia.
  - intros pf message message_len. unfold send_coap_udp.
    repeat case_match; cbn [snd app]; repeat constructor.
Qed.

(** ** The Content-Format option without a path *)

(** C5 at an input without path segments.  The URI [coap://10.0.0.5/?x=1]
    parses to an empty path; the simple encoder then writes the byte 0x11
    right behind the header, an option of delta 1, although no option
    precedes it and the delta of option 12 is 12 there.  The option builder
    [coap_message_add_option] writes that option with delta 12. *)
Theorem content_format_delta_without_path :
  let uri := {| host := bytes_of_string "10.0.0.5"; port := 5683;
                path := []; query := bytes_of_string "x=1" |} in
  let built :=
    build_simple_coap_message uri (Some (bytes_of_string "hi"))
      (replicate 12 0) 12 in
  let msg := (coap_message_add_header
                (coap_message_init (replicate 12 0) 12) 0x1234).2 in
  let general :=
    coap_message_add_option msg COAP_OPTION_CONTENT_FORMAT
      (Some [COAP_CONTENT_FORMAT_JSON]) 1 in
  parse_coap_uri (Some (bytes_of_string "coap://10.0.0.5/?x=1"))
  = ParseTrue uri
  /\ path_segments (path uri) = []
  /\ built = (Some 9, [0x40; 0x02; 0x12; 0x34; 0x11; 50; 0xFF; 104; 105;
                        0; 0; 0])
  /\ decode_delta (drop 4 built.2) = Some 1
  /\ COAP_OPTION_CONTENT_FORMAT - 0 = 12
  /\ general.1 = true
  /\ decode_delta (drop 4 (msg_buffer general.2)) = Some 12.
Proof. vm_compute. repeat split; reflexivity. Qed.

(** ** The theorems at sample inputs *)


Lemma builder_appends_are_atomic_witness :
  coap_message_add_option sample_builder 13
    (Some (replicate 20 1)) 20 = (false, sample_builder)
  /\ (coap_message_add_option sample_builder 13 (Some [1; 2; 3]) 3).1 = true
  /\ msg_length
       (coap_message_add_option sample_builder 13 (Some [1; 2; 3]) 3).2 = 8.
Proof.
  split.
  - refine (proj1 (proj2 (proj1 (builder_appends_are_atomic sample_builder 13
                     (Some (replicate 20 1)) 20 None _ _ _ _))) _);
      vm_compute; try split; congruence.
  - pose proof (proj2 (proj2 (proj1 (builder_appends_are_atomic sample_builder
                     13 (Some [1; 2; 3]) 3 None
                     ltac:(vm_compute; split; congruence)
                     ltac:(vm_compute; split; congruence)
                     ltac:(reflexivity) ltac:(reflexivity))))
                  ltac:(vm_compute; congruence)
                  ltac:(vm_compute; congruence)) as (Hok & Hlen & _).
    split; [exact Hok | exact Hlen].
Defined.

Lemma add_option_accepts_decreasing_number_witness :
  (coap_message_add_option sample_builder 11 (Some [1; 2; 3]) 3).1 = true
  /\ decode_delta
       (drop 4 (msg_buffer
                  (coap_message_add_option sample_builder 11
                     (Some [1; 2; 3]) 3).2))
     = Some 65535.
Proof.
  pose proof (add_option_accepts_decreasing_number sample_builder 11
                (Some [1; 2; 3]) 3
                ltac:(vm_compute; congruence)
                ltac:(vm_compute; split; congruence)
                ltac:(reflexivity)
                ltac:(vm_compute; split; congruence)
                ltac:(reflexivity)
                ltac:(vm_compute; congruence)
                ltac:(vm_compute; congruence)) as (Hok & _ & Hdelta & _).
  split; [exact Hok | exact Hdelta].
Defined.

Lemma parse_coap_uri_recovers_components_witness :
  parse_coap_uri
    (Some (bytes_of_string "coap://192.168.1.52:5683/sensor/send-data"))
  = ParseTrue scenario_a_uri
  /\ path_segments (path scenario_a_uri)
     = [bytes_of_string "sensor"; bytes_of_string "send-data"].
Proof.
  refine (parse_coap_uri_recovers_components
            (bytes_of_string "192.168.1.52") (Some (bytes_of_string "5683"))
            [bytes_of_string "sensor"; bytes_of_string "send-data"] None
            _ _ _ _ _).
  - repeat split; [discriminate | vm_compute; lia | vm_compute; repeat constructor].
  - repeat split; [discriminate | vm_compute; repeat constructor
                   | vm_compute; discriminate].
  - split; [discriminate|].
    repeat constructor; try discriminate; vm_compute; repeat constructor.
  - vm_compute. lia.
  - split; [constructor | vm_compute; lia].
Defined.

Lemma build_simple_rejects_long_segment_witness :
  (build_simple_coap_message
     {| host := bytes_of_string "10.0.0.5"; port := 5683;
        path := bytes_of_string "a/thirteen-byte"; query := [] |}
     (Some scenario_a_payload) (replicate 512 0) 512).1 = None.
Proof.
  refine (proj1 (build_simple_rejects_long_segment _ _ _ _ _ _)).
  - vm_compute. lia.
  - vm_compute. apply Exists_cons_tl, Exists_cons_hd. lia.
Defined.

Lemma task_gives_up_without_network_witness :
  coap_send_task offline_platform
    (Some (bytes_of_string "coap://10.0.0.5/a")) (Some scenario_a_payload)
    (replicate 512 0)
  = Some (idle_polls 100
          ++ [EvLog LOGE "WiFi not connected, cannot send CoAP";
              EvTaskDelete]).
Proof.
  refine (proj1 (proj2 (proj2 (task_gives_up_without_network offline_platform
                                 _ _ _ _)))).
  intros k. reflexivity.
Defined.

Lemma send_coap_udp_closes_socket_witness :
  open_sockets
    (send_coap_udp short_send_platform scenario_a_uri (replicate 10 0) 10).2 []
  = [].
Proof.
  refine (proj1 (send_coap_udp_closes_socket short_send_platform
                   scenario_a_uri (replicate 10 0) 10 _)).
  vm_compute. discriminate.
Defined.

Lemma parsed_port_is_int_reduced_on_send_witness :
  htons 70000 = 4464.
Proof.
  pose proof (parsed_port_is_int_reduced_on_send
                (Some (bytes_of_string "coap://10.0.0.5:70000/a"))
                {| host := bytes_of_string "10.0.0.5"; port := 70000;
                   path := bytes_of_string "a"; query := [] |}
                ltac:(vm_compute; reflexivity)) as (_ & Hmod & _).
  exact Hmod.
Defined.

(** * Further properties *)

(** ** The simple encoder and the capacity *)

Lemma payload_part_count payload :
  Z.of_nat (length (payload_part payload)) = payload_count payload.
Proof.
  unfold payload_part, payload_count, strlen.
  destruct payload as [[|c p]|]; cbn [deref length]; try reflexivity.
  rewrite (proj2 (Z.eqb_neq _ 0)) by lia. lia.
Qed.

(** The index at which the segment loop ends, or its failure, for short
    segments: the loop fails exactly when the options do not fit. *)
Lemma uri_path_loop_length (rem : list (list Z)) :
  forall segment saved first pos buffer buffer_size,
    pending segment saved = rem ->
    Forall (fun s => s <> [] /\ (length s <= 12)%nat) rem ->
    0 <= pos <= buffer_size ->
    buffer_size + 13 < 2 ^ 32 ->
    (uri_path_loop segment saved first pos buffer buffer_size).1
    = if pos + strlen (uri_path_options first rem) <=? buffer_size
      then Some (pos + strlen (uri_path_options first rem))
      else None.
Proof.
  induction rem as [|seg rem IH];
    intros segment saved first pos buffer buffer_size Hpend Hall Hpos Hmax.
  - destruct segment as [segment|]; [discriminate|].
    rewrite uri_path_loop_equation_2. unfold strlen. cbn [uri_path_options length fst].
    rewrite Z.add_0_r. rewrite (proj2 (Z.leb_le _ _)) by lia.
    reflexivity.
  - destruct segment as [segment|]; [|discriminate].
    cbn [pending] in Hpend. injection Hpend as -> Hrest.
    apply Forall_cons in Hall as [[Hne Hshort] Hall].
    rewrite uri_path_loop_equation_1. cbv zeta. unfold strlen in *.
    assert (0 < length seg)%nat
      by (destruct seg; [congruence | simpl; lia]).
    cbn [uri_path_options]. unfold uri_path_option.
    rewrite !length_app. cbn [length].
    replace (_ >? 0) with true by lia.
    replace (_ >? 12) with false by lia.
    size_t_small.
    destruct (pos + 1 + Z.of_nat (length seg) >? buffer_size) eqn:Efit.
    + cbn [fst]. rewrite (proj2 (Z.leb_gt _ _)) by lia. reflexivity.
    + rewrite IH; try assumption; [| rewrite strtok_pending; exact Hrest | lia].
      replace (pos + 1 + Z.of_nat (length seg)
               + Z.of_nat (length (uri_path_options false rem)))
        with (pos + Z.of_nat (1 + length seg
                              + length (uri_path_options false rem)))
        by lia.
      reflexivity.
Qed.

Section SimpleEncoder.

Variable uri : coap_uri_t.
Variable payload : option (list Z).
Variable buffer : list Z.
Variable buffer_size : Z.

Let segments := path_segments (path uri).
Let options := uri_path_options true segments.
Let message := simple_message_of segments payload.

Hypothesis path_width : (length (path uri) <= 63)%nat.
Hypothesis short_segments : Forall (fun s => (length s <= 12)%nat) segments.

Lemma segments_nonempty_short :
  Forall (fun s => s <> [] /\ (length s <= 12)%nat) segments.
Proof.
  pose proof (path_segments_nonempty (path uri)) as Hne.
  unfold segments in *. rewrite Forall_forall in *.
  intros s Hs. split; auto.
Qed.

Lemma strlen_simple_message :
  strlen message = 4 + strlen options + 2 + payload_count payload.
Proof.
  unfold message, simple_message_of, strlen. fold options.
  rewrite !length_app. rewrite <- payload_part_count. simpl length. lia.
Qed.

(** Whether the call succeeds, and with which length. *)
Lemma build_simple_length :
  0 <= buffer_size ->
  buffer_size + 13 < 2 ^ 32 ->
  buffer_size + strlen (deref payload) + 1 < 2 ^ 32 ->
  (build_simple_coap_message uri payload buffer buffer_size).1
  = if strlen message <=? buffer_size then Some (strlen message) else None.
Proof.
  intros Hsize Hmax Hwrap. rewrite strlen_simple_message.
  unfold build_simple_coap_message. cbv zeta.
  change (to_size_t (0 + 4)) with 4. change (to_size_t (0 + 1)) with 1.
  change (to_size_t (1 + 1)) with 2. change (to_size_t (2 + 1)) with 3.
  change (to_size_t (3 + 1)) with 4.
  assert (0 <= strlen options /\ 0 <= payload_count payload) as [Ho Hp].
  { unfold payload_count, strlen. split; [lia|]. case_match; lia. }
  destruct (4 >? buffer_size) eqn:E4.
  { cbn [fst]. rewrite (proj2 (Z.leb_gt _ _)) by lia. reflexivity. }
  set (b4 := store _ 3 52).
  assert ((if strlen (path uri) >? 0 then
             uri_path_loop (strtok (Some (take 63 (path uri))) slash []).1
               (strtok (Some (take 63 (path uri))) slash []).2 true 4 b4
               buffer_size
           else (Some 4, b4)).1
          = if 4 + strlen options <=? buffer_size
            then Some (4 + strlen options) else None) as Hloop.
  { destruct (strlen (path uri) >? 0) eqn:Epos.
    - rewrite take_ge by lia.
      apply uri_path_loop_length; try lia.
      + apply strtok_first_pending.
      + apply segments_nonempty_short.
    - assert (path uri = []) as Hnil
        by (apply length_zero_iff_nil; unfold strlen in Epos; lia).
      unfold options, segments. rewrite Hnil. cbn [fst].
      replace (4 + strlen (uri_path_options true (path_segments []))
               <=? buffer_size) with true
        by (change (strlen (uri_path_options true (path_segments [])))
              with 0; lia).
      reflexivity. }
  destruct (if strlen (path uri) >? 0 then _ else _) as [[pos|] b'];
    cbn [fst] in Hloop.
  2:{ cbn [fst]. destruct (4 + strlen options <=? buffer_size) eqn:E;
        [discriminate|].
      rewrite (proj2 (Z.leb_gt _ _)) by lia. reflexivity. }
  destruct (4 + strlen options <=? buffer_size) eqn:Eopt; [|discriminate].
  injection Hloop as ->.
  size_t_small.
  destruct (4 + strlen options + 2 >? buffer_size) eqn:Ecf.
  { cbn [fst]. rewrite (proj2 (Z.leb_gt _ _)) by lia. reflexivity. }
  unfold payload_count in *. unfold strlen in *.
  destruct payload as [p|]; cbn [deref length] in *.
  2:{ cbn [fst]. size_t_small. rewrite Z.eqb_refl.
      rewrite (proj2 (Z.leb_le _ _)) by lia. f_equal. lia. }
  destruct (Z.of_nat (length p) >? 0) eqn:Ep.
  - rewrite (proj2 (Z.eqb_neq _ 0)) in * by lia.
    size_t_small.
    match goal with
    | |- context [if ?c then _ else _] => destruct c eqn:Epay
    end; cbn [fst].
    + rewrite (proj2 (Z.leb_gt _ _)) by lia. reflexivity.
    + rewrite (proj2 (Z.leb_le _ _)) by lia. f_equal. lia.
  - replace (Z.of_nat (length p) =? 0) with true in * by lia.
    cbn [fst]. size_t_small.
    rewrite (proj2 (Z.leb_le _ _)) by lia. f_equal. lia.
Qed.

End SimpleEncoder.

(** ** Writes stay inside the capacity *)

Lemma written_within_refl lo hi b : written_within lo hi b b.
Proof. repeat split. Qed.

Lemma written_within_trans lo lo' hi b1 b2 b3 :
  lo <= lo' ->
  written_within lo hi b1 b2 -> written_within lo' hi b2 b3 ->
  written_within lo hi b1 b3.
Proof.
  intros Hlo (L1 & T1 & D1) (L2 & T2 & D2). repeat split.
  - congruence.
  - rewrite <- T1.
    replace (Z.to_nat lo) with (Z.to_nat lo `min` Z.to_nat lo')%nat by lia.
    rewrite <- !take_take. f_equal. exact T2.
  - congruence.
Qed.

Lemma take_inserts (k l : list Z) (n i : nat) :
  (n <= i)%nat -> take n (list_inserts i k l) = take n l.
Proof.
  revert i. induction k as [|y k IH]; intros i Hi; cbn [list_inserts];
    [reflexivity|].
  rewrite take_insert_ge by lia. apply IH. lia.
Qed.

Lemma drop_inserts (k l : list Z) (n i : nat) :
  (i + length k <= n)%nat -> drop n (list_inserts i k l) = drop n l.
Proof.
  revert i. induction k as [|y k IH]; intros i Hi; cbn [list_inserts];
    [reflexivity|].
  cbn [length] in Hi. rewrite drop_insert_lt by lia. apply IH. lia.
Qed.

Lemma store_within lo hi b i v :
  0 <= lo <= i -> i < hi -> written_within lo hi b (store b i v).
Proof.
  intros Hlo Hhi. unfold store. repeat split.
  - apply length_insert.
  - apply take_insert_ge. lia.
  - apply drop_insert_lt. lia.
Qed.

Lemma memcpy_within lo hi b i src :
  0 <= lo <= i -> i + strlen src <= hi ->
  written_within lo hi b (memcpy b i src (strlen src)).
Proof.
  intros Hlo Hhi. unfold memcpy, strlen in *. rewrite Nat2Z.id, firstn_all.
  repeat split.
  - apply length_inserts.
  - apply take_inserts. lia.
  - apply drop_inserts. lia.
Qed.

(** The segment loop writes only between its start index and the
    capacity, and ends at an index in that range. *)
Lemma uri_path_loop_within (rem : list (list Z)) :
  forall segment saved first pos buffer buffer_size,
    pending segment saved = rem ->
    0 <= pos <= buffer_size ->
    buffer_size + 13 < 2 ^ 32 ->
    let r := uri_path_loop segment saved first pos buffer buffer_size in
    written_within pos buffer_size buffer r.2
    /\ forall p, r.1 = Some p -> pos <= p <= buffer_size.
Proof.
  induction rem as [|seg rem IH];
    intros segment saved first pos buffer buffer_size Hpend Hpos Hmax; cbv zeta.
  - destruct segment as [segment|]; [discriminate|].
    rewrite uri_path_loop_equation_2. cbn [fst snd].
    split; [apply written_within_refl|]. intros p [= <-]. lia.
  - destruct segment as [segment|]; [|discriminate].
    cbn [pending] in Hpend. injection Hpend as -> Hrest.
    rewrite uri_path_loop_equation_1. cbv zeta.
    destruct (strlen seg >? 0) eqn:Epos.
    2:{ cbn [fst snd]. split; [apply written_within_refl|].
        intros p [= <-]. lia. }
    destruct (strlen seg >? 12) eqn:Elong.
    { cbn [fst snd]. split; [apply written_within_refl | discriminate]. }
    assert (0 <= strlen seg) by (unfold strlen; lia).
    size_t_small.
    destruct (pos + 1 + strlen seg >? buffer_size) eqn:Efit.
    { cbn [fst snd]. split; [apply written_within_refl | discriminate]. }
    match goal with
    | |- context [uri_path_loop ?s ?sv false ?p ?b ?n] =>
        destruct (IH s sv false p b n) as [Hw Hp];
          [rewrite strtok_pending; exact Hrest | lia | exact Hmax |]
    end.
    split.
    + eapply written_within_trans; [| |exact Hw]; [lia|].
      eapply written_within_trans with (lo' := pos + 1);
        [lia | | apply memcpy_within; lia].
      apply store_within; lia.
    + intros p Hsome. specialize (Hp p Hsome). lia.
Qed.

Lemma written_within_weaken lo lo' hi b b' :
  lo <= lo' -> written_within lo' hi b b' -> written_within lo hi b b'.
Proof.
  intros Hlo Hw.
  exact (written_within_trans lo lo' hi b b b' Hlo
           (written_within_refl lo hi b) Hw).
Qed.

(** The layout of the message for any payload, when it fits. *)
Lemma build_simple_fits
    (uri : coap_uri_t) (payload : option (list Z)) (buffer : list Z)
    (buffer_size : Z) :
  (length (path uri) <= 63)%nat ->
  Forall (fun s => (length s <= 12)%nat) (path_segments (path uri)) ->
  let message := simple_message_of (path_segments (path uri)) payload in
  strlen message <= buffer_size ->
  buffer_size <= strlen buffer ->
  buffer_size < 2 ^ 32 ->
  build_simple_coap_message uri payload buffer buffer_size
  = (Some (strlen message), message ++ drop (length message) buffer).
Proof.
  intros Hlen Hshort message Hfit Hbuf Hmax.
  unfold build_simple_coap_message. cbv zeta.
  set (options := uri_path_options true (path_segments (path uri))) in *.
  assert (strlen message
          = 4 + strlen options + 2 + strlen (payload_part payload)) as Htotal.
  { unfold message, simple_message_of, strlen. fold options.
    rewrite !length_app. simpl length. lia. }
  unfold strlen in *.
  change (to_size_t (0 + 4)) with 4. change (to_size_t (0 + 1)) with 1.
  change (to_size_t (1 + 1)) with 2. change (to_size_t (2 + 1)) with 3.
  change (to_size_t (3 + 1)) with 4.
  replace (4 >? buffer_size) with false by lia.
  rewrite header_stores by lia.
  pose proof (simple_path_part (path uri) (drop 4 buffer) buffer_size
                Hlen Hshort) as Hpath.
  cbv zeta in Hpath. fold options in Hpath. unfold strlen in Hpath.
  rewrite Hpath;
    [| lia | rewrite length_app, length_drop; simpl; lia | exact Hmax].
  size_t_small.
  replace (_ >? buffer_size) with false by lia.
  rewrite !drop_drop.
  set (w := simple_header ++ options).
  set (r := drop (4 + length options) buffer).
  replace (simple_header ++ options ++ r) with (w ++ r)
    by (unfold w; rewrite <- app_assoc; reflexivity).
  assert (Z.of_nat (length w) = 4 + Z.of_nat (length options)) as Hw
    by (unfold w; rewrite length_app; simpl; lia).
  assert (Z.of_nat (length r) = Z.of_nat (length buffer) - Z.of_nat (length w))
    as Hr by (unfold r; rewrite length_drop; lia).
  rewrite (store_at w r) by lia.
  replace (w ++ [17] ++ drop 1 r) with ((w ++ [17]) ++ drop 1 r)
    by (rewrite <- app_assoc; reflexivity).
  rewrite (store_at (w ++ [17]) (drop 1 r))
    by (rewrite ?length_app, ?length_drop; simpl; lia).
  replace ((w ++ [17]) ++ [50] ++ drop 1 (drop 1 r))
    with ((w ++ [17; 50]) ++ drop 1 (drop 1 r))
    by (rewrite <- !app_assoc; reflexivity).
  rewrite drop_drop.
  assert (message = (w ++ [17; 50]) ++ payload_part payload) as Hmsg
    by (unfold message, simple_message_of, w; fold options;
        rewrite <- !app_assoc; reflexivity).
  assert (forall k, (k = length (payload_part payload))%nat ->
            drop (length message) buffer = drop k (drop (1 + 1) r)) as Hdrop.
  { intros k ->. unfold r. rewrite !drop_drop. f_equal.
    rewrite Hmsg, !length_app. simpl length. lia. }
  destruct payload as [[|c p]|]; cbn [payload_part length] in *.
  - change (Z.of_nat 0 >? 0) with false. cbv iota.
    rewrite (Hdrop 0%nat eq_refl), Hmsg, app_nil_r, drop_0.
    f_equal. f_equal. rewrite length_app. simpl length. lia.
  - rewrite (proj2 (Z.gtb_lt (Z.of_nat (S (length p))) 0)) by lia.
    size_t_small.
    rewrite Z.gtb_ltb, (proj2 (Z.ltb_ge _ _)) by lia.
    rewrite (store_at (w ++ [17; 50]) (drop (1 + 1) r))
      by (rewrite ?length_app, ?length_drop; simpl; lia).
    replace ((w ++ [17; 50]) ++ [255] ++ drop 1 (drop (1 + 1) r))
      with ((w ++ [17; 50; 255]) ++ drop 1 (drop (1 + 1) r))
      by (rewrite <- !app_assoc; reflexivity).
    rewrite (memcpy_at (w ++ [17; 50; 255]) _ (c :: p));
      [| rewrite length_app; simpl; lia | reflexivity
       | rewrite !length_drop; simpl length; lia].
    rewrite (Hdrop (S (S (length p))) eq_refl), Hmsg.
    f_equal; [f_equal; rewrite !length_app; simpl length; lia|].
    rewrite <- !app_assoc. cbn [app]. do 5 f_equal.
    rewrite !drop_drop. f_equal.
  - rewrite (Hdrop 0%nat eq_refl), Hmsg, app_nil_r, drop_0.
    f_equal. f_equal. rewrite length_app. simpl length. lia.
Qed.

(** X1. For a path of short segments, [build_simple_coap_message]
    succeeds exactly when the whole message (header, Uri-Path options,
    Content-Format option, and the marker and payload when there is a
    non-empty payload) fits the capacity; the buffer then begins with that
    message and keeps its other bytes.  A message without payload ends with
    the Content-Format option: no marker is written. *)
Theorem build_simple_succeeds_iff_fits
    (uri : coap_uri_t) (payload : option (list Z)) (buffer : list Z)
    (buffer_size : Z) :
  (length (path uri) <= 63)%nat ->
  Forall (fun s => (length s <= 12)%nat) (path_segments (path uri)) ->
  0 <= buffer_size <= strlen buffer ->
  buffer_size + 13 < 2 ^ 32 ->
  buffer_size + strlen (deref payload) + 1 < 2 ^ 32 ->
  let message := simple_message_of (path_segments (path uri)) payload in
  let built := build_simple_coap_message uri payload buffer buffer_size in
  (strlen message <= buffer_size ->
   built = (Some (strlen message), message ++ drop (length message) buffer))
  /\ (buffer_size < strlen message -> built.1 = None)
  /\ (payload_count payload = 0 ->
      message = simple_header
                ++ uri_path_options true (path_segments (path uri))
                ++ content_format_option).
Proof.
  intros Hlen Hshort [Hsize Hbuf] Hmax Hwrap. cbv zeta.
  split; [|split].
  - intros Hfit. apply build_simple_fits; try assumption; lia.
  - intros Hover. rewrite build_simple_length by assumption.
    rewrite (proj2 (Z.leb_gt _ _)) by lia. reflexivity.
  - intros Hnone. unfold simple_message_of.
    pose proof (payload_part_count payload) as Hc. rewrite Hnone in Hc.
    assert (payload_part payload = []) as ->
      by (apply length_zero_iff_nil; lia).
    rewrite app_nil_r. reflexivity.
Qed.

(** The bytes [build_simple_coap_message] may change, and the lengths it
    may return. *)
Lemma build_simple_within
    (uri : coap_uri_t) (payload : option (list Z)) (buffer : list Z)
    (buffer_size : Z) :
  0 <= buffer_size ->
  buffer_size + 13 < 2 ^ 32 ->
  buffer_size + strlen (deref payload) + 1 < 2 ^ 32 ->
  written_within 0 buffer_size buffer
    (build_simple_coap_message uri payload buffer buffer_size).2
  /\ forall len,
       (build_simple_coap_message uri payload buffer buffer_size).1 = Some len ->
       6 <= len <= buffer_size.
Proof.
  intros Hsize Hmax Hwrap.
  unfold build_simple_coap_message. cbv zeta.
  change (to_size_t (0 + 4)) with 4. change (to_size_t (0 + 1)) with 1.
  change (to_size_t (1 + 1)) with 2. change (to_size_t (2 + 1)) with 3.
  change (to_size_t (3 + 1)) with 4.
  destruct (4 >? buffer_size) eqn:E4.
  { cbn [fst snd]. split; [apply written_within_refl | discriminate]. }
  set (b4 := store _ 3 52).
  assert (written_within 0 buffer_size buffer b4) as Hb4.
  { unfold b4.
    repeat (eapply written_within_trans with (lo' := 0);
            [lia | | apply store_within; lia]).
    apply written_within_refl. }
  assert (written_within 0 buffer_size buffer
            (if strlen (path uri) >? 0 then
               uri_path_loop (strtok (Some (take 63 (path uri))) slash []).1
                 (strtok (Some (take 63 (path uri))) slash []).2 true 4 b4
                 buffer_size
             else (Some 4, b4)).2
          /\ forall p,
               (if strlen (path uri) >? 0 then
                  uri_path_loop (strtok (Some (take 63 (path uri))) slash []).1
                    (strtok (Some (take 63 (path uri))) slash []).2 true 4 b4
                    buffer_size
                else (Some 4, b4)).1 = Some p -> 4 <= p <= buffer_size)
    as [Hw Hp].
  { destruct (strlen (path uri) >? 0).
    - match goal with
      | |- context [uri_path_loop ?s ?sv true 4 b4 buffer_size] =>
          destruct (uri_path_loop_within _ s sv true 4 b4 buffer_size
                      eq_refl ltac:(lia) Hmax) as [Hw Hp]
      end.
      split; [|exact Hp].
      eapply written_within_trans with (lo' := 0); [lia | exact Hb4 |].
      eapply written_within_weaken; [|exact Hw]. lia.
    - cbn [fst snd]. split; [exact Hb4|]. intros p [= <-]. lia. }
  destruct (if strlen (path uri) >? 0 then _ else _) as [[pos|] b'];
    cbn [fst snd] in *; [|split; [exact Hw | discriminate]].
  specialize (Hp pos eq_refl).
  destruct (to_size_t (pos + 2) >? buffer_size) eqn:Ecf;
    [cbn [fst snd]; split; [exact Hw | discriminate]|].
  rewrite (to_size_t_small (pos + 2)) in Ecf by lia.
  size_t_small.
  set (b6 := store (store b' pos 17) (pos + 1) 50).
  assert (written_within 0 buffer_size buffer b6) as Hb6.
  { unfold b6.
    repeat (eapply written_within_trans with (lo' := 0);
            [lia | | apply store_within; lia]).
    exact Hw. }
  assert (0 <= strlen (deref payload)) by (unfold strlen; lia).
  destruct payload as [p|]; cbn [deref] in *;
    [|cbn [fst snd]; split; [exact Hb6 | intros len [= <-]; lia]].
  destruct (strlen p >? 0) eqn:Ep;
    [|cbn [fst snd]; split; [exact Hb6 | intros len [= <-]; lia]].
  size_t_small.
  destruct (pos + 1 + 1 + 1 + strlen p >? buffer_size) eqn:Epay;
    cbn [fst snd]; [split; [exact Hb6 | discriminate]|].
  split; [|intros len [= <-]; lia].
  eapply written_within_trans with (lo' := 0); [lia | exact Hb6 |].
  eapply written_within_trans with (lo' := 0);
    [lia | | apply memcpy_within; lia].
  apply store_within; lia.
Qed.

(** X2. Whatever the URI and the payload, [build_simple_coap_message]
    writes only below index [buffer_size]: the buffer keeps its length and
    every byte from [buffer_size] on, also when the call fails; a length it
    returns is at least 6 and at most [buffer_size]. *)
Theorem build_simple_stays_in_bounds
    (uri : coap_uri_t) (payload : option (list Z)) (buffer : list Z)
    (buffer_size : Z) :
  0 <= buffer_size ->
  buffer_size + 13 < 2 ^ 32 ->
  buffer_size + strlen (deref payload) + 1 < 2 ^ 32 ->
  let built := build_simple_coap_message uri payload buffer buffer_size in
  length built.2 = length buffer
  /\ drop (Z.to_nat buffer_size) built.2 = drop (Z.to_nat buffer_size) buffer
  /\ forall len, built.1 = Some len -> 6 <= len <= buffer_size.
Proof.
  intros Hsize Hmax Hwrap. cbv zeta.
  destruct (build_simple_within uri payload buffer buffer_size
              Hsize Hmax Hwrap) as [(L & _ & D) Hlen].
  split; [exact L | split; [exact D | exact Hlen]].
Qed.

(** ** The message builder: header, invariant, round trip *)

Lemma add_header_fits (msg : coap_message_t) (message_id : Z) :
  0 <= msg_length msg ->
  msg_length msg + 4 <= msg_capacity msg ->
  msg_capacity msg < 2 ^ 32 ->
  0 <= message_id < 2 ^ 16 ->
  (4 <= length (msg_buffer msg))%nat ->
  coap_message_add_header msg message_id
  = (true,
     {| msg_buffer :=
          [0x40; COAP_CODE_POST; message_id / 256; message_id mod 256]
          ++ drop 4 (msg_buffer msg);
        msg_length := 4;
        msg_capacity := msg_capacity msg;
        msg_last_option_number := msg_last_option_number msg |}).
Proof.
  intros Hlen Hfit Hwrap Hid Hbuf. unfold coap_message_add_header.
  rewrite to_size_t_small by lia.
  rewrite Z.gtb_ltb, (proj2 (Z.ltb_ge _ _)) by lia.
  do 2 f_equal.
  change (to_uint8 (Z.lor (Z.lor (Z.shiftl COAP_VERSION 6)
                                 (Z.shiftl COAP_TYPE_CON 4)) 0)) with 0x40.
  change (to_uint8 COAP_CODE_POST) with COAP_CODE_POST.
  assert (to_uint8 (Z.land (Z.shiftr message_id 8) 0xFF) = message_id / 256)
    as ->.
  { rewrite land_0xFF, Z.shiftr_div_pow2 by lia.
    change (2 ^ 8) with 256. change (2 ^ 16) with 65536 in Hid.
    assert (0 <= message_id / 256 < 256)
      by (split; [apply Z.div_pos; lia | apply Z.div_lt_upper_bound; lia]).
    unfold to_uint8. change (2 ^ 8) with 256.
    rewrite (Z.mod_small (message_id / 256)) by lia.
    apply Z.mod_small. lia. }
  assert (to_uint8 (Z.land message_id 0xFF) = message_id mod 256) as ->.
  { rewrite land_0xFF. unfold to_uint8. change (2 ^ 8) with 256.
    apply Z.mod_small. apply Z.mod_pos_bound. lia. }
  rewrite (store_at [] (msg_buffer msg) 0) by (simpl; lia).
  rewrite (store_at [0x40] (drop 1 (msg_buffer msg)) 1)
    by (rewrite ?length_drop; simpl; lia).
  rewrite drop_drop.
  rewrite (store_at [0x40; COAP_CODE_POST] (drop (1 + 1) (msg_buffer msg)) 2)
    by (rewrite ?length_drop; simpl; lia).
  rewrite drop_drop.
  rewrite (store_at [0x40; COAP_CODE_POST; message_id / 256]
             (drop (1 + 1 + 1) (msg_buffer msg)) 3)
    by (rewrite ?length_drop; simpl; lia).
  rewrite drop_drop. reflexivity.
Qed.

(** X3. [coap_message_add_header] refuses a message that has no room for
    four more bytes and leaves it unchanged.  Otherwise it writes 0x40, the
    POST code 2 and the message id, high byte first, at indexes 0 to 3,
    keeps the rest of the buffer and sets the length to 4, whatever the
    length was; the id is read back as [256 * byte2 + byte3]. *)
Theorem add_header_writes_header (msg : coap_message_t) (message_id : Z) :
  0 <= msg_length msg ->
  msg_capacity msg < 2 ^ 32 ->
  msg_length msg + 4 < 2 ^ 32 ->
  0 <= message_id < 2 ^ 16 ->
  let added := coap_message_add_header msg message_id in
  (msg_capacity msg < msg_length msg + 4 -> added = (false, msg))
  /\ (msg_length msg + 4 <= msg_capacity msg ->
      (4 <= length (msg_buffer msg))%nat ->
      added
      = (true,
         {| msg_buffer :=
              [0x40; COAP_CODE_POST; message_id / 256; message_id mod 256]
              ++ drop 4 (msg_buffer msg);
            msg_length := 4;
            msg_capacity := msg_capacity msg;
            msg_last_option_number := msg_last_option_number msg |})
      /\ 256 * (message_id / 256) + message_id mod 256 = message_id).
Proof.
  intros Hlen Hcap Hwrap Hid. cbv zeta. split.
  - intros Hover. unfold coap_message_add_header.
    rewrite to_size_t_small by lia.
    rewrite (proj2 (Z.gtb_lt _ _)) by lia. reflexivity.
  - intros Hfit Hbuf.
    split; [apply add_header_fits; assumption|].
    pose proof (Z.div_mod message_id 256 ltac:(lia)). lia.
Qed.

(** An option append into a buffer split at the length. *)
Lemma add_option_fits_app msg option_number value value_len w r :
  msg_buffer msg = w ++ r ->
  msg_length msg = strlen w ->
  0 <= value_len <= strlen (deref value) ->
  strlen w + value_len + 5 < 2 ^ 32 ->
  let delta := to_uint16 (option_number - msg_last_option_number msg) in
  let encoding := option_encoding delta (take (Z.to_nat value_len) (deref value)) in
  strlen w + strlen encoding <= msg_capacity msg ->
  msg_capacity msg <= strlen (w ++ r) ->
  coap_message_add_option msg option_number value value_len
  = (true,
     {| msg_buffer := (w ++ encoding) ++ drop (length encoding) r;
        msg_length := strlen (w ++ encoding);
        msg_capacity := msg_capacity msg;
        msg_last_option_number := option_number |}).
Proof.
  intros Hb Hl Hval Hwrap delta encoding Hfit Hcap.
  subst delta encoding. unfold strlen in *.
  pose proof (space_needed_encoding msg option_number value value_len
                ltac:(lia) Hval ltac:(lia)) as Henc.
  rewrite add_option_fits;
    [| lia | exact Hval | lia | rewrite Henc; lia | rewrite Hb; lia].
  set (encoding := option_encoding _ _) in *.
  rewrite Henc, Hb, Hl.
  rewrite Nat2Z.id, take_app_length.
  replace (Z.to_nat (Z.of_nat (length w) + Z.of_nat (length encoding)))
    with (length w + length encoding)%nat by lia.
  rewrite <- drop_drop, drop_app_length, length_app, <- app_assoc.
  do 2 f_equal. lia.
Qed.




(** ** Reading an option back *)

Lemma wire_value_small v : 0 <= v < 2 ^ 16 + 269 -> wire_value v = v.
Proof.
  intros Hv. unfold wire_value. destruct (v <? 269) eqn:E; [reflexivity|].
  rewrite Z.mod_small by lia. lia.
Qed.

Lemma decode_field_extended v tail :
  0 <= v ->
  decode_field (nibble_field v) (extended_field v ++ tail)
  = Some (wire_value v, tail).
Proof.
  intros Hv. unfold decode_field, nibble_field, extended_field, wire_value.
  destruct (v <? 13) eqn:E13.
  - rewrite E13. replace (v <? 269) with true by lia. reflexivity.
  - destruct (v <? 269) eqn:E269.
    + change (13 <? 13) with false. change (13 =? 13) with true.
      cbn [app]. do 2 f_equal. lia.
    + change (14 <? 13) with false. change (14 =? 13) with false.
      change (14 =? 14) with true. cbn [app]. do 2 f_equal.
      change (2 ^ 16) with 65536.
      assert (0 <= v - 269) as He by lia.
      clear E13 E269 Hv. revert He. generalize (v - 269). intros e He.
      Z.div_mod_to_equations. lia.
Qed.

Lemma wire_value_le v : 0 <= v -> 0 <= wire_value v <= v.
Proof.
  intros Hv. unfold wire_value. destruct (v <? 269) eqn:E; [lia|].
  pose proof (Z.mod_pos_bound (v - 269) (2 ^ 16) ltac:(lia)).
  pose proof (Z.mod_le (v - 269) (2 ^ 16) ltac:(lia) ltac:(lia)). lia.
Qed.

Lemma decode_option_encoding delta value rest :
  0 <= delta ->
  decode_option (option_encoding delta value ++ rest)
  = Some (wire_value delta,
          take (Z.to_nat (wire_value (strlen value))) (value ++ rest),
          drop (Z.to_nat (wire_value (strlen value))) (value ++ rest)).
Proof.
  intros Hd. unfold option_encoding, decode_option. cbn [app].
  pose proof (nibble_field_range (strlen value) ltac:(unfold strlen; lia)) as Hl.
  pose proof (nibble_field_range delta Hd) as Hn.
  assert ((16 * nibble_field delta + nibble_field (strlen value)) / 16
          = nibble_field delta) as ->.
  { rewrite Z.mul_comm, Z.div_add_l by lia. rewrite Z.div_small by lia. lia. }
  assert ((16 * nibble_field delta + nibble_field (strlen value)) mod 16
          = nibble_field (strlen value)) as ->.
  { rewrite Z.add_comm, Z.mul_comm, Z.mod_add by lia. apply Z.mod_small. lia. }
  rewrite <- !app_assoc.
  rewrite decode_field_extended by exact Hd.
  rewrite decode_field_extended by (unfold strlen; lia).
  pose proof (wire_value_le (strlen value) ltac:(unfold strlen; lia)).
  rewrite (proj2 (Z.leb_le _ _)); [reflexivity|].
  unfold strlen in *. rewrite length_app. lia.
Qed.

Section OptionReadBack.

Variable msg : coap_message_t.
Variable option_number : Z.
Variable value : option (list Z).
Variable value_len : Z.

Let delta := to_uint16 (option_number - msg_last_option_number msg).
Let written := take (Z.to_nat value_len) (deref value).
Let needed := option_space_needed delta value_len.
Let added := coap_message_add_option msg option_number value value_len.

Hypothesis length_nonneg : 0 <= msg_length msg.
Hypothesis value_readable : 0 <= value_len <= strlen (deref value).
Hypothesis no_wrap : msg_length msg + value_len + 5 < 2 ^ 32.
Hypothesis fits : msg_length msg + needed <= msg_capacity msg.
Hypothesis in_buffer : msg_capacity msg <= strlen (msg_buffer msg).

(** What a decoder reads at the place the option was appended. *)
Lemma add_option_decoded :
  decode_option (drop (Z.to_nat (msg_length msg)) (msg_buffer added.2))
  = Some (delta,
          take (Z.to_nat (wire_value value_len)) written,
          drop (Z.to_nat (wire_value value_len)) written
          ++ drop (Z.to_nat (msg_length msg + needed)) (msg_buffer msg)).
Proof.
  unfold added, needed, strlen in *.
  pose proof (space_needed_encoding msg option_number value value_len
                length_nonneg value_readable no_wrap) as Henc.
  rewrite add_option_fits by assumption.
  cbn [snd msg_buffer]. fold delta written in Henc |- *.
  rewrite drop_app_length' by (rewrite length_take; lia).
  rewrite decode_option_encoding
    by (unfold delta, to_uint16; apply Z.mod_pos_bound; lia).
  pose proof (strlen_written msg option_number value value_len
                value_readable) as Hw.
  fold written in Hw. rewrite Hw.
  rewrite wire_value_small
    by (unfold delta, to_uint16;
        pose proof (Z.mod_pos_bound
                      (option_number - msg_last_option_number msg)
                      (2 ^ 16) ltac:(lia)); lia).
  pose proof (wire_value_le value_len ltac:(lia)).
  unfold strlen in Hw.
  rewrite take_app_le, drop_app_le by lia. reflexivity.
Qed.

End OptionReadBack.

(** X5. Round trip of one option.  When [coap_message_add_option]
    succeeds with a value of fewer than 65805 bytes, decoding the bytes it
    wrote at [msg->length] after the option format (four-bit fields, one or
    two extension bytes) gives back the delta, as the unsigned 16-bit
    difference to the last option number, and the value, and leaves the
    bytes behind the option. *)
Theorem add_option_round_trip
    (msg : coap_message_t) (option_number : Z) (value : option (list Z))
    (value_len : Z) :
  0 <= msg_length msg ->
  0 <= value_len <= strlen (deref value) ->
  value_len < 65805 ->
  msg_length msg + value_len + 5 < 2 ^ 32 ->
  let delta := to_uint16 (option_number - msg_last_option_number msg) in
  let needed := option_space_needed delta value_len in
  msg_length msg + needed <= msg_capacity msg ->
  msg_capacity msg <= strlen (msg_buffer msg) ->
  let added := coap_message_add_option msg option_number value value_len in
  decode_option (drop (Z.to_nat (msg_length msg)) (msg_buffer added.2))
  = Some (delta, take (Z.to_nat value_len) (deref value),
          drop (Z.to_nat (msg_length msg + needed)) (msg_buffer msg)).
Proof.
  intros Hlen Hval Hshort Hwrap delta needed Hfit Hcap added.
  subst delta needed added.
  rewrite add_option_decoded by assumption.
  rewrite wire_value_small by (change (2 ^ 16) with 65536; lia).
  rewrite take_take, Nat.min_id.
  rewrite drop_ge by (rewrite length_take; lia). reflexivity.
Qed.

(** X6. The length field of a long value.  For a value of 65805 bytes or
    more, the two extension bytes of the length hold [value_len - 269]
    reduced to 16 bits: the option is written in full, but a decoder reads a
    length of [269 + (value_len - 269) mod 65536], which is smaller than
    [value_len], and so only a proper prefix of the value. *)
Theorem add_option_long_value_length_wraps
    (msg : coap_message_t) (option_number : Z) (value : option (list Z))
    (value_len : Z) :
  0 <= msg_length msg ->
  65805 <= value_len <= strlen (deref value) ->
  msg_length msg + value_len + 5 < 2 ^ 32 ->
  let delta := to_uint16 (option_number - msg_last_option_number msg) in
  let needed := option_space_needed delta value_len in
  msg_length msg + needed <= msg_capacity msg ->
  msg_capacity msg <= strlen (msg_buffer msg) ->
  let added := coap_message_add_option msg option_number value value_len in
  let read := 269 + (value_len - 269) mod 65536 in
  added.1 = true
  /\ msg_length added.2 = msg_length msg + 3 + escape_bytes delta + value_len
  /\ read < value_len
  /\ exists rest,
       decode_option (drop (Z.to_nat (msg_length msg)) (msg_buffer added.2))
       = Some (delta, take (Z.to_nat read) (deref value), rest).
Proof.
  intros Hlen Hval Hwrap delta needed Hfit Hcap added read.
  subst delta needed added read.
  assert (wire_value value_len = 269 + (value_len - 269) mod 65536) as Hwire
    by (unfold wire_value; replace (value_len <? 269) with false by lia;
        reflexivity).
  pose proof (Z.mod_pos_bound (value_len - 269) 65536 ltac:(lia)) as Hmod.
  split; [|split; [|split]].
  - rewrite add_option_fits by (unfold strlen in *; lia). reflexivity.
  - rewrite add_option_fits by (unfold strlen in *; lia).
    cbn [snd msg_length].
    rewrite option_space_needed_exact by lia.
    unfold escape_bytes at 2.
    replace (value_len <? 13) with false by lia.
    replace (value_len <? 269) with false by lia. lia.
  - lia.
  - eexists. rewrite add_option_decoded by (try assumption; lia).
    rewrite Hwire, take_take.
    rewrite Nat.min_l by lia. reflexivity.
Qed.

(** ** The builder and the simple encoder agree *)

Lemma short_option_encoding (first : bool) segment :
  (length segment <= 12)%nat ->
  option_encoding (if first then 11 else 0) segment
  = uri_path_option first segment.
Proof.
  intros Hshort. unfold option_encoding, uri_path_option, strlen.
  unfold nibble_field, extended_field.
  replace (Z.of_nat (length segment) <? 13) with true by lia.
  destruct first; reflexivity.
Qed.

(** Appending the Uri-Path options of short segments with the builder. *)
Lemma add_uri_path_options_fits (segments : list (list Z)) :
  forall (first : bool) msg w r,
    Forall (fun s => (length s <= 12)%nat) segments ->
    msg_buffer msg = w ++ r ->
    msg_length msg = strlen w ->
    msg_last_option_number msg = (if first then 0 else 11) ->
    strlen w + strlen (uri_path_options first segments) <= msg_capacity msg ->
    msg_capacity msg <= strlen (w ++ r) ->
    msg_capacity msg + 17 < 2 ^ 32 ->
    add_uri_path_options msg segments
    = (true,
       {| msg_buffer :=
            (w ++ uri_path_options first segments)
            ++ drop (length (uri_path_options first segments)) r;
          msg_length := strlen (w ++ uri_path_options first segments);
          msg_capacity := msg_capacity msg;
          msg_last_option_number :=
            match segments with
            | [] => msg_last_option_number msg
            | _ => COAP_OPTION_URI_PATH
            end |}).
Proof.
  induction segments as [|seg rest IH];
    intros first msg w r Hshort Hb Hl Hlast Hfit Hcap Hmax.
  - cbn [add_uri_path_options uri_path_options length].
    rewrite app_nil_r, drop_0, <- Hb, <- Hl. destruct msg; reflexivity.
  - apply Forall_cons in Hshort as [Hseg Hrest].
    cbn [add_uri_path_options uri_path_options] in *.
    unfold strlen in *. rewrite length_app in Hfit, Hcap.
    assert (to_uint16 (COAP_OPTION_URI_PATH - msg_last_option_number msg)
            = if first then 11 else 0) as Hdelta
      by (rewrite Hlast; destruct first; reflexivity).
    rewrite (add_option_fits_app msg COAP_OPTION_URI_PATH (Some seg)
               (Z.of_nat (length seg)) w r Hb Hl);
      cbn [deref]; rewrite ?Nat2Z.id, ?firstn_all, ?Hdelta,
                     ?short_option_encoding by assumption;
      unfold strlen; rewrite ?length_app; try lia.
    cbn [fst snd].
    rewrite (IH false _ (w ++ uri_path_option first seg)
               (drop (length (uri_path_option first seg)) r));
      cbn [msg_buffer msg_length msg_capacity msg_last_option_number];
      try assumption; try reflexivity;
      unfold strlen; rewrite ?length_app, ?length_drop; try lia.
    rewrite drop_drop, <- !app_assoc, Nat.add_assoc.
    destruct rest; reflexivity.
Qed.

Lemma add_payload_fits_app msg payload w r :
  msg_buffer msg = w ++ r ->
  msg_length msg = strlen w ->
  payload <> [] ->
  strlen w + 1 + strlen payload <= msg_capacity msg ->
  msg_capacity msg <= strlen (w ++ r) ->
  msg_capacity msg < 2 ^ 32 ->
  coap_message_add_payload msg (Some payload)
  = (true,
     {| msg_buffer :=
          (w ++ COAP_PAYLOAD_MARKER :: payload)
          ++ drop (length (COAP_PAYLOAD_MARKER :: payload)) r;
        msg_length := strlen (w ++ COAP_PAYLOAD_MARKER :: payload);
        msg_capacity := msg_capacity msg;
        msg_last_option_number := msg_last_option_number msg |}).
Proof.
  intros Hb Hl Hne Hfit Hcap Hmax. unfold strlen in *.
  rewrite add_payload_fits; unfold strlen; try lia; try assumption;
    [| rewrite Hb; lia].
  rewrite Hb, Hl, Nat2Z.id, take_app_length.
  replace (Z.to_nat (Z.of_nat (length w) + 1 + Z.of_nat (length payload)))
    with (length w + length (COAP_PAYLOAD_MARKER :: payload))%nat
    by (simpl length; lia).
  rewrite <- drop_drop, drop_app_length, length_app, <- app_assoc.
  simpl length. do 2 f_equal. lia.
Qed.

(** X7. The builder functions, run in the order header, Uri-Path
    options, Content-Format option, payload, produce the message of the
    simple encoder: for a path with at least one segment, all segments of at
    most 12 bytes, and a message that fits, both leave the same bytes in the
    buffer and report the same length. *)
Theorem builder_agrees_with_simple_encoder
    (uri : coap_uri_t) (payload : option (list Z)) (buffer : list Z)
    (capacity : Z) :
  (length (path uri) <= 63)%nat ->
  path_segments (path uri) <> [] ->
  Forall (fun s => (length s <= 12)%nat) (path_segments (path uri)) ->
  strlen (simple_message_of (path_segments (path uri)) payload) <= capacity ->
  capacity <= strlen buffer ->
  capacity + 17 < 2 ^ 32 ->
  let simple := build_simple_coap_message uri payload buffer capacity in
  let general :=
    build_with_builder (path_segments (path uri)) payload buffer capacity in
  general.1 = true
  /\ simple.1 = Some (msg_length general.2)
  /\ simple.2 = msg_buffer general.2
  /\ msg_last_option_number general.2 = COAP_OPTION_CONTENT_FORMAT.
Proof.
  intros Hlen Hne Hshort Hfit Hbuf Hmax. cbv zeta.
  rewrite build_simple_fits by (try assumption; lia).
  remember (path_segments (path uri)) as segments eqn:Hsegs. clear Hsegs.
  destruct segments as [|s0 rest0]; [congruence|].
  remember (uri_path_options true (s0 :: rest0)) as options eqn:Hoptions.
  assert (strlen (simple_message_of (s0 :: rest0) payload)
          = 4 + strlen options + 2 + strlen (payload_part payload)) as Htotal.
  { unfold simple_message_of, strlen. rewrite <- Hoptions.
    rewrite !length_app. simpl length. lia. }
  unfold strlen in *.
  unfold build_with_builder. cbv zeta.
  rewrite (add_header_fits (coap_message_init buffer capacity) 0x1234);
    [| cbn [coap_message_init msg_length msg_capacity msg_buffer]; lia ..].
  cbn [coap_message_init msg_length msg_capacity msg_buffer
       msg_last_option_number fst snd negb].
  change [64; COAP_CODE_POST; 4660 / 256; 4660 mod 256] with simple_header.
  rewrite (add_uri_path_options_fits (s0 :: rest0) true _ simple_header
             (drop 4 buffer));
    [| cbn [msg_length msg_capacity msg_buffer msg_last_option_number];
       try assumption; try reflexivity; rewrite <- ?Hoptions;
       unfold strlen; rewrite ?length_app, ?length_drop; simpl length;
       lia ..].
  rewrite <- Hoptions.
  cbn [msg_length msg_capacity msg_buffer msg_last_option_number
       fst snd negb].
  rewrite (add_option_fits_app _ COAP_OPTION_CONTENT_FORMAT
             (Some [COAP_CONTENT_FORMAT_JSON]) 1
             (simple_header ++ options)
             (drop (length options) (drop 4 buffer)));
    [| cbn [msg_length msg_capacity msg_buffer msg_last_option_number deref];
       try reflexivity;
       change (to_uint16 (COAP_OPTION_CONTENT_FORMAT - COAP_OPTION_URI_PATH))
         with 1;
       unfold strlen; rewrite ?length_app, ?length_drop; simpl length;
       lia ..].
  cbn [msg_length msg_capacity msg_buffer msg_last_option_number deref
       fst snd negb].
  change (to_uint16 (COAP_OPTION_CONTENT_FORMAT - COAP_OPTION_URI_PATH))
    with 1.
  change (option_encoding 1 (take (Z.to_nat 1) [COAP_CONTENT_FORMAT_JSON]))
    with content_format_option.
  rewrite drop_drop.
  set (w := (simple_header ++ options) ++ content_format_option).
  set (r := drop (length options + length content_format_option)
              (drop 4 buffer)).
  assert (Z.of_nat (length w) = 4 + Z.of_nat (length options) + 2) as Hw
    by (unfold w; rewrite !length_app; simpl length; lia).
  assert (forall part,
            simple_message_of (s0 :: rest0) payload = w ++ part ->
            simple_message_of (s0 :: rest0) payload
            ++ drop (length (simple_message_of (s0 :: rest0) payload)) buffer
            = (w ++ part) ++ drop (length part) r) as Hbuffer.
  { intros part ->. f_equal. unfold r. rewrite !drop_drop. f_equal.
    rewrite length_app. change (length content_format_option) with 2%nat.
    lia. }
  destruct payload as [[|c p]|]; cbn [payload_part length] in *.
  - unfold coap_message_add_payload.
    change (strlen [] =? 0) with true.
    cbn [fst snd msg_length msg_capacity msg_buffer msg_last_option_number].
    rewrite (Hbuffer []), app_nil_r, drop_0
      by (unfold simple_message_of, w; cbn [payload_part];
          rewrite <- Hoptions, <- !app_assoc; reflexivity).
    repeat split. f_equal. rewrite Htotal. unfold strlen. lia.
  - rewrite (add_payload_fits_app _ (c :: p) w r);
      [| cbn [msg_length msg_capacity msg_buffer msg_last_option_number];
         try reflexivity; try congruence;
         unfold strlen; rewrite ?length_app;
         try (unfold r; rewrite ?length_drop);
         simpl length in *; lia ..].
    cbn [fst snd msg_length msg_buffer msg_last_option_number].
    rewrite (Hbuffer (COAP_PAYLOAD_MARKER :: c :: p))
      by (unfold simple_message_of, w; cbn [payload_part];
          rewrite <- Hoptions, <- !app_assoc; reflexivity).
    repeat split. f_equal. rewrite Htotal. unfold strlen.
    rewrite length_app.
    change (length (COAP_PAYLOAD_MARKER :: c :: p)) with (S (S (length p))).
    lia.
  - cbn [coap_message_add_payload fst snd
         msg_length msg_capacity msg_buffer msg_last_option_number].
    rewrite (Hbuffer []), app_nil_r, drop_0
      by (unfold simple_message_of, w; cbn [payload_part];
          rewrite <- Hoptions, <- !app_assoc; reflexivity).
    repeat split. f_equal. rewrite Htotal. unfold strlen. lia.
Qed.

(** ** [parse_coap_uri]: what is rejected, what is kept *)

Lemma sscanf_run_literal_mismatch lit format text :
  take (length lit) text <> lit ->
  (sscanf_run (map DChar lit ++ format) text []).1 < 2.
Proof.
  revert text. induction lit as [|c lit IH]; intros text Hne;
    [exfalso; apply Hne; reflexivity|].
  cbn [map app sscanf_run scan_directive].
  destruct text as [|x text]; [cbn; unfold EOF; lia|].
  destruct (x =? c) eqn:E; [|cbn; lia].
  apply Z.eqb_eq in E. subst x. cbn [app]. apply IH.
  intros Heq. apply Hne. cbn [length take]. f_equal. exact Heq.
Qed.

(** X8. A text that does not begin with [coap://] is rejected. *)
Theorem parse_rejects_other_scheme (text : list Z) :
  take 7 text <> bytes_of_string "coap://" ->
  parse_coap_uri (Some text) = ParseFalse.
Proof.
  intros Hscheme. unfold parse_coap_uri. cbv zeta.
  pose proof (sscanf_run_literal_mismatch (bytes_of_string "coap://")
                [DScanset 63 [58; 47]; DChar 58; DInt; DChar 47; DString 127]
                text Hscheme) as H1.
  pose proof (sscanf_run_literal_mismatch (bytes_of_string "coap://")
                [DScanset 63 [47]; DChar 47; DString 127]
                text Hscheme) as H2.
  change (sscanf_run _ text []) with (sscanf text format_host_port_path) in H1.
  change (sscanf_run _ text []) with (sscanf text format_host_path) in H2.
  rewrite (proj2 (Z.ltb_lt _ _) H1), (proj2 (Z.ltb_lt _ _) H2). reflexivity.
Qed.

Lemma strcspn_ge s rest reject :
  Forall (fun c => mem c reject = false) s ->
  (length s <= strcspn (s ++ rest) reject)%nat.
Proof.
  induction 1 as [|c s Hc Hs IH]; cbn [app strcspn length]; [lia|].
  rewrite Hc. lia.
Qed.

(** A host of more than [width] characters: the scan set takes [width] of
    them and the next directive meets another character of the host. *)
Lemma scan_scanset_nonempty width excluded input :
  input <> [] ->
  scan_directive (DScanset width excluded) input
  = let n := Nat.min width (strcspn input excluded) in
    if (n =? 0)%nat then MatchingFailure
    else Matched [IStr (take n input)] (drop n input).
Proof. destruct input; [congruence | reflexivity]. Qed.

Lemma scan_scanset_long_host width excluded h rest c d :
  (0 < width < length h)%nat ->
  Forall (fun x => mem x excluded = false) h ->
  mem c excluded = true ->
  (sscanf_run (DScanset width excluded :: DChar c :: d) (h ++ rest) []).1 = 1.
Proof.
  intros Hwidth Hh Hc. cbn [sscanf_run].
  pose proof (strcspn_ge h rest excluded Hh) as Hspan.
  rewrite scan_scanset_nonempty
    by (intros E; apply (f_equal length) in E; rewrite length_app in E;
        simpl in E; lia).
  cbv zeta. rewrite Nat.min_l by lia.
  rewrite (proj2 (Nat.eqb_neq width 0)) by lia.
  rewrite drop_app_le by lia.
  destruct (drop width h) as [|x t] eqn:Ed.
  { apply (f_equal length) in Ed. rewrite length_drop in Ed. simpl in Ed. lia. }
  assert (x ∈ h) as Hin.
  { apply (list_elem_of_lookup_2 _ width). rewrite <- (Nat.add_0_r width).
    rewrite <- lookup_drop, Ed. reflexivity. }
  rewrite Forall_forall in Hh. specialize (Hh x Hin).
  cbn [app]. rewrite scan_char_mismatch; [reflexivity|].
  intros ->. congruence.
Qed.

(** X9. A host of 64 or more characters is not truncated: the URI is
    rejected, whatever follows the host. *)
Theorem parse_rejects_long_host (h rest : list Z) :
  (64 <= length h)%nat ->
  Forall (fun c => mem c [58; 47] = false) h ->
  parse_coap_uri (Some (bytes_of_string "coap://" ++ h ++ rest)) = ParseFalse.
Proof.
  intros Hlong Hh. unfold parse_coap_uri. cbv zeta.
  assert ((sscanf (bytes_of_string "coap://" ++ h ++ rest)
             format_host_port_path).1 = 1) as H1.
  { unfold sscanf, format_host_port_path. rewrite sscanf_run_literal.
    apply scan_scanset_long_host; [lia | exact Hh | reflexivity]. }
  assert ((sscanf (bytes_of_string "coap://" ++ h ++ rest)
             format_host_path).1 = 1) as H2.
  { unfold sscanf, format_host_path. rewrite sscanf_run_literal.
    apply scan_scanset_long_host; [lia | | reflexivity].
    eapply Forall_impl; [exact Hh|]. intros c Hc. cbn beta in Hc.
    unfold mem in *. cbn [existsb] in *.
    apply orb_false_iff in Hc as [_ Hc]. exact Hc. }
  rewrite H1, H2. reflexivity.
Qed.

(** X10. Without a path the two formats differ.  [coap://h:p] and
    [coap://h:p/] are accepted with an empty path and an empty query, because
    host and port already make two items; [coap://h/] and [coap://h] are
    rejected, because the format without port needs a path as its second
    item. *)
Theorem parse_without_path (h digits : list Z) :
  valid_host h -> valid_port digits ->
  let base := bytes_of_string "coap://" ++ h in
  let parsed := {| host := h; port := digits_value digits;
                   path := []; query := [] |} in
  parse_coap_uri (Some (base ++ 58 :: digits)) = ParseTrue parsed
  /\ parse_coap_uri (Some (base ++ 58 :: digits ++ [47])) = ParseTrue parsed
  /\ parse_coap_uri (Some (base ++ [47])) = ParseFalse
  /\ parse_coap_uri (Some base) = ParseFalse.
Proof.
  intros Hhost Hport. pose proof Hhost as (Hne & Hlen & Hh). cbv zeta.
  assert (Forall (fun c => mem c [47] = false) h) as Hh47.
  { eapply Forall_impl; [exact Hh|]. intros c Hc. cbn beta in Hc.
    unfold mem in *. cbn [existsb] in *.
    apply orb_false_iff in Hc as [_ Hc]. exact Hc. }
  assert (forall tail,
            (tail = [] \/ tail = [47]) ->
            sscanf ((bytes_of_string "coap://" ++ h) ++ 58 :: digits ++ tail)
              format_host_port_path
            = (2, [IStr h; IInt (digits_value digits)])) as Hport_scan.
  { intros tail Htail. unfold sscanf, format_host_port_path.
    rewrite <- app_assoc, sscanf_run_literal. cbn [sscanf_run app].
    rewrite scan_scanset_field by (try assumption; reflexivity).
    rewrite scan_char_match.
    destruct Htail as [-> | ->];
      rewrite scan_int_digits by first [assumption | exact I | reflexivity];
      reflexivity. }
  split; [|split; [|split]].
  - unfold parse_coap_uri. cbv zeta.
    pose proof (Hport_scan [] (or_introl eq_refl)) as Hscan.
    rewrite app_nil_r in Hscan. rewrite Hscan. reflexivity.
  - unfold parse_coap_uri. cbv zeta.
    rewrite (Hport_scan [47] (or_intror eq_refl)). reflexivity.
  - unfold parse_coap_uri. cbv zeta.
    assert (sscanf ((bytes_of_string "coap://" ++ h) ++ [47])
              format_host_port_path = (1, [IStr h])) as ->.
    { unfold sscanf, format_host_port_path.
      rewrite <- app_assoc, sscanf_run_literal. cbn [sscanf_run app].
      rewrite scan_scanset_field by (try assumption; reflexivity).
      rewrite scan_char_mismatch by lia. reflexivity. }
    assert (sscanf ((bytes_of_string "coap://" ++ h) ++ [47])
              format_host_path = (1, [IStr h])) as ->.
    { unfold sscanf, format_host_path.
      rewrite <- app_assoc, sscanf_run_literal. cbn [sscanf_run app].
      rewrite scan_scanset_field by (try assumption; reflexivity).
      rewrite scan_char_match. reflexivity. }
    reflexivity.
  - unfold parse_coap_uri. cbv zeta.
    assert (sscanf (bytes_of_string "coap://" ++ h)
              format_host_port_path = (1, [IStr h])) as ->.
    { unfold sscanf, format_host_port_path.
      rewrite <- (app_nil_r h) at 1.
      rewrite sscanf_run_literal. cbn [sscanf_run app].
      rewrite scan_scanset_field by (try assumption; exact I).
      reflexivity. }
    assert (sscanf (bytes_of_string "coap://" ++ h)
              format_host_path = (1, [IStr h])) as ->.
    { unfold sscanf, format_host_path.
      rewrite <- (app_nil_r h) at 1.
      rewrite sscanf_run_literal. cbn [sscanf_run app].
      rewrite scan_scanset_field by (try assumption; exact I).
      reflexivity. }
    reflexivity.
Qed.

(** *** What an accepted URI holds *)

Lemma take_strcspn_allowed s reject n :
  (n <= strcspn s reject)%nat ->
  Forall (fun c => mem c reject = false) (take n s).
Proof.
  revert n. induction s as [|c s IH]; intros n Hn.
  - rewrite take_nil. constructor.
  - destruct n as [|n]; [constructor|].
    cbn [strcspn] in Hn. destruct (mem c reject) eqn:E; [lia|].
    cbn [take]. constructor; [exact E | apply IH; lia].
Qed.

Lemma scan_scanset_matched width excluded input items rest :
  scan_directive (DScanset width excluded) input = Matched items rest ->
  exists s, items = [IStr s] /\ scanset_string width excluded s.
Proof.
  intros H. destruct input as [|x input]; [discriminate|].
  rewrite scan_scanset_nonempty in H by discriminate. cbv zeta in H.
  remember (Nat.min width (strcspn (x :: input) excluded)) as n eqn:Hn.
  destruct (n =? 0)%nat eqn:En; [discriminate|].
  apply Nat.eqb_neq in En. injection H as <- _.
  eexists. split; [reflexivity|]. split; [|split].
  - destruct n as [|n]; [congruence | discriminate].
  - rewrite length_take. lia.
  - apply take_strcspn_allowed. lia.
Qed.

Lemma scan_char_matched c input items rest :
  scan_directive (DChar c) input = Matched items rest -> items = [].
Proof.
  cbn [scan_directive]. destruct input as [|x input]; [discriminate|].
  destruct (x =? c); [|discriminate]. congruence.
Qed.

Lemma scan_int_matched input items rest :
  scan_directive DInt input = Matched items rest ->
  exists v, items = [IInt v].
Proof.
  cbn [scan_directive]. unfold scan_int. cbv zeta.
  destruct (drop _ input) as [|c after_sign]; [discriminate|].
  destruct (digits_len _ =? 0)%nat; [discriminate|].
  intros H. injection H as <- _. eexists. reflexivity.
Qed.

Lemma scan_string_matched width input items rest :
  scan_directive (DString width) input = Matched items rest ->
  exists s, items = [IStr s] /\ word_string width s.
Proof.
  cbn [scan_directive]. cbv zeta.
  destruct (drop _ input) as [|c word] eqn:E; [discriminate|].
  intros H. injection H as <- _. eexists. split; [reflexivity|]. split.
  - rewrite length_take. lia.
  - apply take_strcspn_allowed, Nat.le_min_r.
Qed.

(** The items of ["%63[^:/]:%d/%127s"]: fewer than two, or a host and a
    port, or a host, a port and a word. *)
Lemma host_port_path_items input :
  let r := sscanf_run
             [DScanset 63 [58; 47]; DChar 58; DInt; DChar 47; DString 127]
             input [] in
  r.1 < 2
  \/ exists h v,
       scanset_string 63 [58; 47] h
       /\ (r = (2, [IStr h; IInt v])
           \/ exists w, word_string 127 w /\ r = (3, [IStr h; IInt v; IStr w])).
Proof.
  cbn [sscanf_run].
  destruct (scan_directive (DScanset 63 [58; 47]) input)
    as [items1 rest1| |] eqn:E1; [|left; cbn; unfold EOF; lia ..].
  apply scan_scanset_matched in E1 as (h & -> & Hh). cbn [app].
  destruct (scan_directive (DChar 58) rest1)
    as [items2 rest2| |] eqn:E2; [|left; cbn; lia ..].
  apply scan_char_matched in E2 as ->. cbn [app].
  destruct (scan_directive DInt rest2)
    as [items3 rest3| |] eqn:E3; [|left; cbn; lia ..].
  apply scan_int_matched in E3 as (v & ->). cbn [app].
  right. exists h, v. split; [exact Hh|].
  destruct (scan_directive (DChar 47) rest3)
    as [items4 rest4| |] eqn:E4; [|left; reflexivity ..].
  apply scan_char_matched in E4 as ->. cbn [app].
  destruct (scan_directive (DString 127) rest4)
    as [items5 rest5| |] eqn:E5; [|left; reflexivity ..].
  apply scan_string_matched in E5 as (w & -> & Hw).
  right. exists w. split; [exact Hw | reflexivity].
Qed.

(** The items of ["%63[^/]/%127s"]: fewer than two, or a host and a word. *)
Lemma host_path_items input :
  let r := sscanf_run [DScanset 63 [47]; DChar 47; DString 127] input [] in
  r.1 < 2
  \/ exists h w,
       scanset_string 63 [47] h /\ word_string 127 w
       /\ r = (2, [IStr h; IStr w]).
Proof.
  cbn [sscanf_run].
  destruct (scan_directive (DScanset 63 [47]) input)
    as [items1 rest1| |] eqn:E1; [|left; cbn; unfold EOF; lia ..].
  apply scan_scanset_matched in E1 as (h & -> & Hh). cbn [app].
  destruct (scan_directive (DChar 47) rest1)
    as [items2 rest2| |] eqn:E2; [|left; cbn; lia ..].
  apply scan_char_matched in E2 as ->. cbn [app].
  destruct (scan_directive (DString 127) rest2)
    as [items3 rest3| |] eqn:E3; [|left; cbn; lia ..].
  apply scan_string_matched in E3 as (w & -> & Hw).
  right. exists h, w. split; [exact Hh|]. split; [exact Hw | reflexivity].
Qed.

Lemma sscanf_literal_cases lit format text :
  (sscanf_run (map DChar lit ++ format) text []).1 < 2
  \/ sscanf_run (map DChar lit ++ format) text []
     = sscanf_run format (drop (length lit) text) [].
Proof.
  destruct (decide (take (length lit) text = lit)) as [E | E].
  - right. rewrite <- (take_drop (length lit) text) at 1.
    rewrite E. apply sscanf_run_literal.
  - left. apply sscanf_run_literal_mismatch. exact E.
Qed.

Lemma strchr_before s c :
  match strchr s c with
  | Some n => Forall (fun x => x <> c) (take n s)
  | None => Forall (fun x => x <> c) s
  end.
Proof.
  induction s as [|d s IH]; cbn [strchr]; [constructor|].
  destruct (d =? c) eqn:E; [constructor|].
  apply Z.eqb_neq in E.
  destruct (strchr s c) as [n|]; cbn [option_map take];
    constructor; assumption.
Qed.

Lemma word_string_take width n s :
  word_string width s -> (n <= 63)%nat -> word_string 63 (take n s).
Proof.
  intros [_ Hs] Hn. split.
  - rewrite length_take. lia.
  - apply Forall_take. exact Hs.
Qed.

(** The path and the query cut out of the text behind the host. *)
Lemma path_and_query_fields h p w parsed :
  Forall (fun c => mem c white_space = false) w ->
  match strchr w question_mark with
  | Some path_len =>
      if (63 <? path_len)%nat then ParseOverrun
      else
        ParseTrue
          {| host := h; port := p;
             path := take path_len w;
             query := take 63 (drop (S path_len) w) |}
  | None =>
      ParseTrue {| host := h; port := p; path := take 63 w; query := [] |}
  end = ParseTrue parsed ->
  host parsed = h
  /\ word_string 63 (path parsed)
  /\ Forall (fun c => c <> question_mark) (path parsed)
  /\ word_string 63 (query parsed).
Proof.
  intros Hw. pose proof (strchr_before w question_mark) as Hbefore.
  destruct (strchr w question_mark) as [path_len|].
  - destruct (63 <? path_len)%nat eqn:E; [discriminate|].
    apply Nat.ltb_ge in E. intros H. injection H as <-.
    cbn [host port path query]. unfold word_string.
    rewrite !length_take. repeat split.
    + lia.
    + apply Forall_take, Hw.
    + exact Hbefore.
    + lia.
    + apply Forall_take, Forall_drop, Hw.
  - intros H. injection H as <-.
    cbn [host port path query]. unfold word_string.
    rewrite !length_take. repeat split.
    + lia.
    + apply Forall_take, Hw.
    + apply Forall_take. exact Hbefore.
    + simpl. lia.
    + constructor.
Qed.

Lemma sscanf_host_port_path_items text :
  (sscanf text format_host_port_path).1 < 2
  \/ exists h v,
       scanset_string 63 [58; 47] h
       /\ (sscanf text format_host_port_path = (2, [IStr h; IInt v])
           \/ exists w,
               word_string 127 w
               /\ sscanf text format_host_port_path
                  = (3, [IStr h; IInt v; IStr w])).
Proof.
  unfold sscanf, format_host_port_path.
  destruct (sscanf_literal_cases (bytes_of_string "coap://")
              [DScanset 63 [58; 47]; DChar 58; DInt; DChar 47; DString 127]
              text) as [Hfew | ->]; [left; exact Hfew|].
  apply host_port_path_items.
Qed.

Lemma sscanf_host_path_items text :
  (sscanf text format_host_path).1 < 2
  \/ exists h w,
       scanset_string 63 [47] h /\ word_string 127 w
       /\ sscanf text format_host_path = (2, [IStr h; IStr w]).
Proof.
  unfold sscanf, format_host_path.
  destruct (sscanf_literal_cases (bytes_of_string "coap://")
              [DScanset 63 [47]; DChar 47; DString 127]
              text) as [Hfew | ->]; [left; exact Hfew|].
  apply host_path_items.
Qed.

Lemma scanset_string_without_slash h :
  scanset_string 63 [58; 47] h -> scanset_string 63 [47] h.
Proof.
  intros (Hne & Hlen & Hall). split; [exact Hne|].
  split; [exact Hlen|]. eapply Forall_impl; [exact Hall|].
  intros c Hc. cbn beta in Hc. unfold mem in *. cbn [existsb] in *.
  apply orb_false_iff in Hc as [_ Hc]. exact Hc.
Qed.

(** The fields of an accepted URI. *)
Lemma parse_accepted_fields (uri : option (list Z)) (parsed : coap_uri_t) :
  parse_coap_uri uri = ParseTrue parsed ->
  scanset_string 63 [47] (host parsed)
  /\ word_string 63 (path parsed)
  /\ Forall (fun c => c <> question_mark) (path parsed)
  /\ word_string 63 (query parsed).
Proof.
  destruct uri as [text|]; [|discriminate].
  unfold parse_coap_uri. cbv zeta.
  destruct (sscanf_host_port_path_items text)
    as [Hfew | (h & v & Hh & [-> | (w & Hw & ->)])].
  - rewrite (proj2 (Z.ltb_lt _ _) Hfew).
    destruct (sscanf_host_path_items text)
      as [Hfew' | (h & w & Hh & Hw & ->)].
    + rewrite (proj2 (Z.ltb_lt _ _) Hfew'). discriminate.
    + cbn [fst snd]. change (2 <? 2) with false. cbv iota.
      unfold assigned_str at 3 4. cbn [lookup list_lookup].
      intros H. apply path_and_query_fields in H; [|exact (proj2 Hw)].
      destruct H as (Hhost & Hrest). rewrite Hhost.
      split; [exact Hh | exact Hrest].
  - apply scanset_string_without_slash in Hh.
    cbn [fst snd]. change (2 <? 2) with false. cbv iota.
    unfold assigned_str, assigned_int. cbn [lookup list_lookup].
    intros H. apply path_and_query_fields in H; [|constructor].
    destruct H as (Hhost & Hrest). rewrite Hhost.
    split; [exact Hh | exact Hrest].
  - apply scanset_string_without_slash in Hh.
    cbn [fst snd]. change (3 <? 2) with false. cbv iota.
    unfold assigned_str, assigned_int. cbn [lookup list_lookup].
    intros H. apply path_and_query_fields in H; [|exact (proj2 Hw)].
    destruct H as (Hhost & Hrest). rewrite Hhost.
    split; [exact Hh | exact Hrest].
Qed.





(** *** A path longer than its field *)

Lemma sscanf_host_then_word h w :
  valid_host h -> w <> [] -> (length w <= 127)%nat ->
  Forall (fun c => mem c white_space = false) w ->
  sscanf (bytes_of_string "coap://" ++ h ++ 47 :: w) format_host_port_path
  = (1, [IStr h])
  /\ sscanf (bytes_of_string "coap://" ++ h ++ 47 :: w) format_host_path
     = (2, [IStr h; IStr w]).
Proof.
  intros (Hne & Hlen & Hh) Hw Hwlen Hwhite. split.
  - unfold sscanf, format_host_port_path.
    rewrite sscanf_run_literal. cbn [sscanf_run app].
    rewrite scan_scanset_field by (try assumption; reflexivity).
    rewrite scan_char_mismatch by lia. reflexivity.
  - unfold sscanf, format_host_path.
    rewrite sscanf_run_literal. cbn [sscanf_run app].
    rewrite scan_scanset_field;
      [| assumption | assumption
       | apply scanset_string_without_slash; repeat split; assumption
       | reflexivity].
    rewrite scan_char_match, scan_string_rest by assumption. reflexivity.
Qed.

(** X12. The text behind the host is read into 128 bytes, the path field
    has 64.  When that text has 64 or more characters, it is cut to 63 if no
    ['?'] follows; with a ['?'] behind it, all its characters and a NUL are
    copied into the path field, past its end. *)
Theorem parse_long_path (h w q : list Z) :
  valid_host h ->
  Forall (fun c => mem c (question_mark :: white_space) = false) w ->
  valid_query q ->
  (64 <= length w)%nat -> (length w + 1 + length q <= 127)%nat ->
  parse_coap_uri (Some (bytes_of_string "coap://" ++ h ++ 47 :: w))
  = ParseTrue {| host := h; port := 5683; path := take 63 w; query := [] |}
  /\ parse_coap_uri
       (Some (bytes_of_string "coap://" ++ h ++ 47 :: w
              ++ question_mark :: q))
     = ParseOverrun.
Proof.
  intros Hhost Hw Hq Hlong Hfits.
  assert (Forall (fun c => mem c white_space = false) w) as Hwhite.
  { eapply Forall_impl; [exact Hw|]. intros c Hc. cbn beta in Hc.
    unfold mem in *. cbn [existsb] in *.
    apply orb_false_iff in Hc as [_ Hc]. exact Hc. }
  assert (Forall (fun c => c <> question_mark) w) as Hmark.
  { eapply Forall_impl; [exact Hw|]. intros c Hc. cbn beta in Hc.
    unfold mem in *. cbn [existsb] in *.
    apply orb_false_iff in Hc as [Hc _]. lia. }
  assert (w <> []) as Hne by (intros ->; simpl in Hlong; lia).
  split.
  - destruct (sscanf_host_then_word h w Hhost Hne ltac:(lia) Hwhite)
      as [H1 H2].
    unfold parse_coap_uri. cbv zeta. rewrite H1, H2.
    cbn [fst snd]. change (1 <? 2) with true. change (2 <? 2) with false.
    cbv iota. unfold assigned_str. cbn [lookup list_lookup].
    rewrite strchr_absent by exact Hmark. reflexivity.
  - destruct (sscanf_host_then_word h (w ++ question_mark :: q) Hhost)
      as [H1 H2].
    + intros E. apply app_eq_nil in E as [E _]. congruence.
    + rewrite length_app. cbn [length]. lia.
    + apply Forall_app. split; [exact Hwhite|].
      apply Forall_cons. split; [reflexivity | exact Hq].
    + unfold parse_coap_uri. cbv zeta. rewrite H1, H2.
      cbn [fst snd]. change (1 <? 2) with true. change (2 <? 2) with false.
      cbv iota. unfold assigned_str. cbn [lookup list_lookup].
      rewrite strchr_found by exact Hmark.
      rewrite (proj2 (Nat.ltb_lt _ _)) by lia. reflexivity.
Qed.

(** ** [wait_for_wifi] *)

Lemma idle_polls_succ n :
  idle_polls (S n) = EvApInfo false :: EvTaskDelay 100 :: idle_polls n.
Proof. reflexivity. Qed.

(** The loop returns at the first poll that finds the network. *)
Lemma wait_for_wifi_loop_success pf timeout_ms (k : nat) :
  forall waited calls,
    (forall j, (j < k)%nat ->
               esp_wifi_sta_get_ap_info pf (calls + j) = false) ->
    esp_wifi_sta_get_ap_info pf (calls + k) = true ->
    waited + 100 * Z.of_nat k < timeout_ms ->
    wait_for_wifi_loop pf timeout_ms waited calls
    = (true, idle_polls k ++ [EvApInfo true]).
Proof.
  induction k as [|k IH]; intros waited calls Hbefore Hat Htime.
  - rewrite wait_for_wifi_loop_step.
    destruct (Z_lt_dec waited timeout_ms); [|lia].
    rewrite Nat.add_0_r in Hat. rewrite Hat. reflexivity.
  - rewrite wait_for_wifi_loop_step.
    destruct (Z_lt_dec waited timeout_ms); [|lia].
    pose proof (Hbefore 0%nat ltac:(lia)) as H0.
    rewrite Nat.add_0_r in H0. rewrite H0. cbv zeta.
    rewrite (IH (waited + 100) (S calls)).
    + reflexivity.
    + intros j Hj. replace (S calls + j)%nat with (calls + S j)%nat by lia.
      apply Hbefore. lia.
    + replace (S calls + k)%nat with (calls + S k)%nat by lia. exact Hat.
    + lia.
Qed.

(** Whatever the platform answers, the loop makes only polls and delays of
    100 ms, and it returns [true] only after a poll that found the
    network within the time allowed. *)
Lemma wait_for_wifi_loop_trace pf timeout_ms (n : nat) :
  forall waited calls,
    (Z.to_nat (timeout_ms - waited) <= n)%nat ->
    let r := wait_for_wifi_loop pf timeout_ms waited calls in
    Forall polling_event r.2
    /\ (exists m : nat,
          elapsed_ms r.2 = 100 * Z.of_nat m
          /\ (m <> 0%nat -> waited + 100 * (Z.of_nat m - 1) < timeout_ms)
          /\ (r.1 = true ->
              waited + 100 * Z.of_nat m < timeout_ms
              /\ esp_wifi_sta_get_ap_info pf (calls + m) = true)).
Proof.
  induction n as [|n IH]; intros waited calls Hfuel; cbv zeta;
    rewrite wait_for_wifi_loop_step;
    (destruct (Z_lt_dec waited timeout_ms) as [Hlt | Hge];
     [| cbn [fst snd]; split; [constructor|]; exists 0%nat;
        cbn [elapsed_ms]; repeat split; try lia; discriminate]).
  - lia.
  - destruct (esp_wifi_sta_get_ap_info pf calls) eqn:Hpoll.
    + cbn [fst snd]. split; [repeat constructor|]. exists 0%nat.
      cbn [elapsed_ms]. rewrite Nat.add_0_r. repeat split; try lia.
      exact Hpoll.
    + cbv zeta. cbn [fst snd].
      destruct (IH (waited + 100) (S calls) ltac:(lia))
        as (Hall & m & Helapsed & Hlast & Htrue).
      split; [repeat constructor; exact Hall|].
      exists (S m). cbn [app elapsed_ms]. rewrite Helapsed.
      split; [lia|]. split.
      * intros _. destruct m as [|m]; [lia|].
        specialize (Hlast ltac:(lia)). lia.
      * intros Hr. destruct (Htrue Hr) as [Ht Hap].
        split; [lia|].
        replace (calls + S m)%nat with (S calls + m)%nat by lia. exact Hap.
Qed.

(** A poll that finds the network in time makes the loop return [true],
    at that poll or at an earlier one. *)
Lemma wait_for_wifi_loop_reaches pf timeout_ms (k : nat) :
  forall waited calls,
    waited + 100 * Z.of_nat k < timeout_ms ->
    esp_wifi_sta_get_ap_info pf (calls + k) = true ->
    (wait_for_wifi_loop pf timeout_ms waited calls).1 = true.
Proof.
  induction k as [|k IH]; intros waited calls Htime Hat;
    rewrite wait_for_wifi_loop_step;
    (destruct (Z_lt_dec waited timeout_ms); [|lia]);
    destruct (esp_wifi_sta_get_ap_info pf calls) eqn:Hpoll;
    try reflexivity.
  - rewrite Nat.add_0_r in Hat. congruence.
  - cbv zeta. cbn [fst]. apply IH; [lia|].
    replace (S calls + k)%nat with (calls + S k)%nat by lia. exact Hat.
Qed.

(** X13. [wait_for_wifi] polls every 100 ms while less than [timeout_ms]
    has been waited.  It returns [true] at the first poll that finds the
    network, after one delay for each poll before it, and only if that poll
    is reached in time; it returns [true] exactly when some poll [k] with
    [100 * k < timeout_ms] finds the network. *)
Theorem wait_for_wifi_first_success (pf : platform) (timeout_ms : Z) :
  (forall k : nat,
     (forall j, (j < k)%nat -> esp_wifi_sta_get_ap_info pf j = false) ->
     esp_wifi_sta_get_ap_info pf k = true ->
     100 * Z.of_nat k < timeout_ms ->
     wait_for_wifi pf timeout_ms = (true, idle_polls k ++ [EvApInfo true])
     /\ elapsed_ms (wait_for_wifi pf timeout_ms).2 = 100 * Z.of_nat k)
  /\ ((wait_for_wifi pf timeout_ms).1 = true <->
      exists k : nat,
        100 * Z.of_nat k < timeout_ms
        /\ esp_wifi_sta_get_ap_info pf k = true).
Proof.
  assert (forall k : nat,
            (forall j, (j < k)%nat -> esp_wifi_sta_get_ap_info pf j = false) ->
            esp_wifi_sta_get_ap_info pf k = true ->
            100 * Z.of_nat k < timeout_ms ->
            wait_for_wifi pf timeout_ms
            = (true, idle_polls k ++ [EvApInfo true])) as Hfirst.
  { intros k Hbefore Hat Htime. unfold wait_for_wifi.
    apply wait_for_wifi_loop_success; [exact Hbefore | exact Hat | lia]. }
  split.
  - intros k Hbefore Hat Htime. rewrite (Hfirst k Hbefore Hat Htime).
    split; [reflexivity|]. cbn [snd].
    clear. induction k as [|k IH]; [reflexivity|].
    rewrite idle_polls_succ. cbn [app elapsed_ms]. lia.
  - split.
    + intros Htrue. unfold wait_for_wifi in Htrue.
      destruct (wait_for_wifi_loop_trace pf timeout_ms
                  (Z.to_nat (timeout_ms - 0)) 0 0%nat (Nat.le_refl _))
        as (_ & m & _ & _ & Hm).
      destruct (Hm Htrue) as [Ht Hap]. exists m. split; [lia | exact Hap].
    + intros (k & Htime & Hat). unfold wait_for_wifi.
      apply (wait_for_wifi_loop_reaches pf timeout_ms k); [lia | exact Hat].
Qed.

(** ** The dispatcher and its task *)

Lemma open_sockets_app t t' opened :
  open_sockets (t ++ t') opened = open_sockets t' (open_sockets t opened).
Proof.
  revert opened. induction t as [|e t IH]; intros opened; [reflexivity|].
  destruct e; cbn [app open_sockets]; apply IH.
Qed.

Lemma socket_calls_app t t' :
  socket_calls (t ++ t') = (socket_calls t + socket_calls t')%nat.
Proof.
  induction t as [|e t IH]; [reflexivity|].
  destruct e; cbn [app socket_calls]; lia.
Qed.

Lemma sendto_calls_app t t' :
  sendto_calls (t ++ t') = (sendto_calls t + sendto_calls t')%nat.
Proof.
  induction t as [|e t IH]; [reflexivity|].
  destruct e; cbn [app sendto_calls]; lia.
Qed.

Lemma elapsed_ms_app t t' :
  elapsed_ms (t ++ t') = elapsed_ms t + elapsed_ms t'.
Proof.
  induction t as [|e t IH]; [reflexivity|].
  destruct e; cbn [app elapsed_ms]; lia.
Qed.

(** Polls and delays touch no socket. *)
Lemma polling_trace t :
  Forall polling_event t ->
  (forall opened, open_sockets t opened = opened)
  /\ socket_calls t = 0%nat /\ sendto_calls t = 0%nat
  /\ Forall sendto_in_bounds t.
Proof.
  induction 1 as [|e t He Ht (IHo & IHs & IHd & IHb)].
  - repeat split. constructor.
  - destruct e; cbn [polling_event] in He; try contradiction;
      cbn [open_sockets socket_calls sendto_calls];
      (split; [exact IHo | split; [exact IHs | split; [exact IHd|]]]);
      constructor; try exact IHb; exact I.
Qed.

Lemma filter_closed (fd : Z) : filter (fun x => x <> fd) [fd] = [].
Proof. rewrite filter_cons_False by (simpl; tauto). reflexivity. Qed.

(** One call of [send_coap_udp]: at most one [sendto], of the first
    [message_len] bytes of the message, and no socket left open. *)
Lemma send_coap_udp_trace pf uri message message_len :
  6 <= message_len <= 512 -> message_len <= strlen message ->
  let r := send_coap_udp pf uri message message_len in
  open_sockets r.2 [] = []
  /\ socket_calls r.2 = 1%nat
  /\ (sendto_calls r.2 <= 1)%nat
  /\ elapsed_ms r.2 = 0
  /\ Forall sendto_in_bounds r.2.
Proof.
  intros Hlen Hmessage. cbv zeta. unfold send_coap_udp. cbv zeta.
  destruct (socket pf <? 0) eqn:Esock.
  { cbn [fst snd app open_sockets socket_calls sendto_calls elapsed_ms].
    rewrite Esock. repeat split; try lia. repeat constructor. }
  destruct (inet_pton pf (host uri) <=? 0) eqn:Eaddr.
  { cbn [fst snd app open_sockets socket_calls sendto_calls elapsed_ms].
    rewrite Esock. cbn [app]. rewrite filter_closed.
    repeat split; try lia. repeat constructor. }
  assert (sendto_in_bounds
            (EvSendto (socket pf) (host uri) (htons (port uri))
               (take (Z.to_nat message_len) message)
               (sendto pf (socket pf) (host uri) (htons (port uri))
                  (take (Z.to_nat message_len) message)))) as Hbounds.
  { cbn [sendto_in_bounds]. split; [lia|]. split.
    - unfold htons, to_uint16. apply Z.mod_pos_bound. lia.
    - unfold strlen in *. rewrite length_take. lia. }
  destruct (sendto pf _ _ _ _ <? 0);
    cbn [fst snd app open_sockets socket_calls sendto_calls elapsed_ms];
    rewrite Esock; cbn [app]; rewrite filter_closed;
    (split; [reflexivity|]); (split; [reflexivity|]); (split; [lia|]);
    (split; [reflexivity|]);
    repeat first [apply List.Forall_nil
                 | apply List.Forall_cons; [first [exact I | exact Hbounds]|]].
Qed.

(** The trace of the dispatcher once the message is built. *)
Lemma dispatch_after_build pf text payload coap_buffer parsed len built :
  parse_coap_uri (Some text) = ParseTrue parsed ->
  build_simple_coap_message parsed payload coap_buffer 512
  = (Some len, built) ->
  payload <> None ->
  coap_send_sensor_data pf (Some text) payload coap_buffer
  = Some ([EvLog LOGI "CoAP payload: %s"]
          ++ (send_coap_udp pf parsed built len).2
          ++ [if (send_coap_udp pf parsed built len).1
              then EvLog LOGI "CoAP sensor data sent successfully"
              else EvLog LOGE "Failed to send CoAP message"]).
Proof.
  intros Hparse Hbuild Hpayload. unfold coap_send_sensor_data.
  destruct payload as [p|]; [|congruence]. cbn [is_null orb].
  rewrite Hparse. cbv zeta. rewrite Hbuild.
  destruct (send_coap_udp pf parsed built len).1; reflexivity.
Qed.

(** What the dispatcher leaves behind, for every URI, payload and platform. *)
Lemma dispatch_trace pf uri payload coap_buffer inner :
  length coap_buffer = 512%nat ->
  strlen (deref payload) + 513 < 2 ^ 32 ->
  coap_send_sensor_data pf uri payload coap_buffer = Some inner ->
  open_sockets inner [] = []
  /\ (sendto_calls inner <= socket_calls inner <= 1)%nat
  /\ elapsed_ms inner = 0
  /\ Forall sendto_in_bounds inner.
Proof.
  intros Hbuffer Hwrap. unfold coap_send_sensor_data.
  destruct (is_null uri || is_null payload).
  { intros [= <-]. cbn. repeat split; try lia. repeat constructor. }
  destruct (parse_coap_uri uri) as [|parsed|]; [| |discriminate].
  { intros [= <-]. cbn. repeat split; try lia. constructor. }
  cbv zeta.
  destruct (build_simple_within parsed payload coap_buffer 512
              ltac:(lia) ltac:(lia) ltac:(lia)) as [(L & _ & _) Hlen].
  destruct (build_simple_coap_message parsed payload coap_buffer 512)
    as [[len|] built]; cbn [fst snd] in *.
  2:{ intros [= <-]. cbn. repeat split; try lia. repeat constructor. }
  specialize (Hlen len eq_refl).
  destruct (send_coap_udp_trace pf parsed built len Hlen
              ltac:(unfold strlen; lia))
    as (Hopen & Hsock & Hsend & Htime & Hbounds).
  cbv zeta in *.
  destruct (negb (send_coap_udp pf parsed built len).1);
    intros [= <-];
    cbn [app open_sockets socket_calls sendto_calls elapsed_ms];
    rewrite open_sockets_app, socket_calls_app, sendto_calls_app,
      elapsed_ms_app;
    cbn [open_sockets socket_calls sendto_calls elapsed_ms];
    rewrite Hopen, Hsock, Htime;
    (repeat split; try lia);
    (apply List.Forall_cons; [exact I|]);
    (apply Forall_app; split; [exact Hbounds | repeat constructor]).
Qed.

(** X14. Every run of [coap_send_task] that is defined ends with
    [vTaskDelete], has waited at most 10 s in [vTaskDelay], opens at most one
    socket and leaves none open, and calls [sendto] at most once, on a valid
    descriptor, with a 16-bit port and a datagram of 6 to 512 bytes: [sendto]
    never reads past [coap_buffer]. *)
Theorem task_trace_invariants
    (pf : platform) (uri payload : option (list Z)) (coap_buffer : list Z)
    (trace : list event) :
  length coap_buffer = 512%nat ->
  strlen (deref payload) + 513 < 2 ^ 32 ->
  coap_send_task pf uri payload coap_buffer = Some trace ->
  last trace = Some EvTaskDelete
  /\ 0 <= elapsed_ms trace <= 10000
  /\ open_sockets trace [] = []
  /\ (sendto_calls trace <= socket_calls trace <= 1)%nat
  /\ Forall sendto_in_bounds trace.
Proof.
  intros Hbuffer Hwrap. unfold coap_send_task. cbv zeta.
  unfold wait_for_wifi.
  destruct (wait_for_wifi_loop_trace pf 10000 (Z.to_nat (10000 - 0)) 0 0%nat
              (Nat.le_refl _)) as (Hpoll & m & Helapsed & Hlast & _).
  cbv zeta in *.
  destruct (polling_trace _ Hpoll) as (Hopen & Hsock & Hsend & Hbounds).
  assert (0 <= elapsed_ms (wait_for_wifi_loop pf 10000 0 0).2 <= 10000)
    as Htime by (destruct m as [|m]; lia).
  destruct (negb (wait_for_wifi_loop pf 10000 0 0).1).
  - intros [= <-].
    rewrite open_sockets_app, socket_calls_app, sendto_calls_app,
      elapsed_ms_app, Hopen, Hsock, Hsend.
    cbn [open_sockets socket_calls sendto_calls elapsed_ms].
    split; [rewrite last_app; reflexivity|].
    split; [lia|]. split; [reflexivity|]. split; [lia|].
    apply Forall_app. split; [exact Hbounds | repeat constructor].
  - destruct (coap_send_sensor_data pf uri payload coap_buffer)
      as [inner|] eqn:Einner; [|discriminate].
    destruct (dispatch_trace pf uri payload coap_buffer inner
                Hbuffer Hwrap Einner) as (Hio & Hic & Hit & Hib).
    intros [= <-].
    rewrite !open_sockets_app, !socket_calls_app, !sendto_calls_app,
      !elapsed_ms_app, Hopen, Hsock, Hsend, Hio, Hit.
    cbn [open_sockets socket_calls sendto_calls elapsed_ms].
    split; [rewrite !last_app; reflexivity|].
    split; [lia|]. split; [reflexivity|]. split; [lia|].
    apply Forall_app. split; [exact Hbounds|].
    apply Forall_app. split; [exact Hib | repeat constructor].
Qed.

(** [send_coap_udp] on a platform that gives a socket and converts the
    address. *)
Lemma send_coap_udp_reaches_sendto pf uri message message_len :
  0 <= socket pf -> 0 < inet_pton pf (host uri) ->
  let datagram := take (Z.to_nat message_len) message in
  let sent := sendto pf (socket pf) (host uri) (htons (port uri)) datagram in
  send_coap_udp pf uri message message_len
  = (negb (sent <? 0),
     [EvSocket (socket pf);
      EvInetPton (host uri) (inet_pton pf (host uri));
      EvSendto (socket pf) (host uri) (htons (port uri)) datagram sent;
      EvClose (socket pf);
      if sent <? 0 then EvLog LOGE "Failed to send UDP packet"
      else EvLog LOGI
             "CoAP POST sent successfully to %s:%d (path: /%s, query: %s, %d bytes)"]).
Proof.
  intros Hsock Haddr. cbv zeta. unfold send_coap_udp. cbv zeta.
  rewrite (proj2 (Z.ltb_ge _ _)) by lia.
  rewrite (proj2 (Z.leb_gt _ _)) by lia.
  destruct (sendto pf _ _ _ _ <? 0); reflexivity.
Qed.

(** The dispatcher from an accepted URI to the datagram. *)
Lemma dispatch_datagram pf text parsed payload coap_buffer :
  parse_coap_uri (Some text) = ParseTrue parsed ->
  Forall (fun s => (length s <= 12)%nat) (path_segments (path parsed)) ->
  length coap_buffer = 512%nat ->
  let message :=
    simple_message_of (path_segments (path parsed)) (Some payload) in
  strlen message <= 512 ->
  0 <= socket pf -> 0 < inet_pton pf (host parsed) ->
  let sent :=
    sendto pf (socket pf) (host parsed) (port parsed mod 2 ^ 16) message in
  coap_send_sensor_data pf (Some text) (Some payload) coap_buffer
  = Some [EvLog LOGI "CoAP payload: %s";
          EvSocket (socket pf);
          EvInetPton (host parsed) (inet_pton pf (host parsed));
          EvSendto (socket pf) (host parsed) (port parsed mod 2 ^ 16)
            message sent;
          EvClose (socket pf);
          if sent <? 0 then EvLog LOGE "Failed to send UDP packet"
          else EvLog LOGI
                 "CoAP POST sent successfully to %s:%d (path: /%s, query: %s, %d bytes)";
          if sent <? 0 then EvLog LOGE "Failed to send CoAP message"
          else EvLog LOGI "CoAP sensor data sent successfully"].
Proof.
  intros Hparse Hshort Hbuffer message Hfit Hsock Haddr. cbv zeta.
  pose proof (parse_accepted_fields _ _ Hparse) as (_ & (Hpath & _) & _).
  pose proof (build_simple_fits parsed (Some payload) coap_buffer 512
                Hpath Hshort Hfit ltac:(unfold strlen; lia) ltac:(lia))
    as Hbuild.
  rewrite (dispatch_after_build pf text (Some payload) coap_buffer parsed
             _ _ Hparse Hbuild ltac:(discriminate)).
  rewrite send_coap_udp_reaches_sendto by assumption. cbv zeta.
  fold message. unfold strlen. rewrite Nat2Z.id, take_app_length.
  unfold htons, to_uint16. cbn [fst snd app].
  destruct (sendto pf _ _ _ _ <? 0); reflexivity.
Qed.

(** X15. From the URI text to the wire: when the URI is accepted, its path
    has only short segments and the message fits the 512 bytes of
    [coap_buffer], the dispatcher hands [sendto] exactly the encoded message
    (header, Uri-Path options, Content-Format option, marker and payload),
    addressed to the parsed host and to the parsed port modulo [2^16], then
    closes the socket and logs the outcome of the send. *)
Theorem dispatch_sends_encoded_message
    (pf : platform) (text payload coap_buffer : list Z) (parsed : coap_uri_t) :
  parse_coap_uri (Some text) = ParseTrue parsed ->
  Forall (fun s => (length s <= 12)%nat) (path_segments (path parsed)) ->
  length coap_buffer = 512%nat ->
  strlen (simple_message_of (path_segments (path parsed)) (Some payload))
  <= 512 ->
  0 <= socket pf -> 0 < inet_pton pf (host parsed) ->
  exists sent outcome,
    coap_send_sensor_data pf (Some text) (Some payload) coap_buffer
    = Some ([EvLog LOGI "CoAP payload: %s";
             EvSocket (socket pf);
             EvInetPton (host parsed) (inet_pton pf (host parsed));
             EvSendto (socket pf) (host parsed) (port parsed mod 2 ^ 16)
               (simple_message_of (path_segments (path parsed))
                  (Some payload))
               sent;
             EvClose (socket pf)] ++ outcome)
    /\ sent = sendto pf (socket pf) (host parsed) (port parsed mod 2 ^ 16)
               (simple_message_of (path_segments (path parsed))
                  (Some payload))
    /\ outcome
       = if sent <? 0
         then [EvLog LOGE "Failed to send UDP packet";
               EvLog LOGE "Failed to send CoAP message"]
         else [EvLog LOGI
                 "CoAP POST sent successfully to %s:%d (path: /%s, query: %s, %d bytes)";
               EvLog LOGI "CoAP sensor data sent successfully"].
Proof.
  intros Hparse Hshort Hbuffer Hfit Hsock Haddr.
  eexists. eexists. split; [|split; reflexivity].
  rewrite (dispatch_datagram pf text parsed payload coap_buffer)
    by assumption.
  cbv zeta. destruct (sendto pf _ _ _ _ <? 0); reflexivity.
Qed.

(** X16. The caller: [app_main] sends to
    [coap://192.168.1.52:5683/sensor/send-data] a payload that [snprintf]
    keeps below 256 bytes.  Such a message always fits [coap_buffer]: the
    dispatcher never fails to build it, and the datagram is the header,
    the options [sensor] and [send-data], the Content-Format option, the
    marker and the payload, sent to port 5683 of 192.168.1.52. *)
Theorem app_main_message_always_fits
    (pf : platform) (payload coap_buffer : list Z) :
  payload <> [] -> (length payload <= 255)%nat ->
  length coap_buffer = 512%nat ->
  0 <= socket pf -> 0 < inet_pton pf (bytes_of_string "192.168.1.52") ->
  let datagram :=
    [0x40; 0x02; 0x12; 0x34]
    ++ [0xB6] ++ bytes_of_string "sensor"
    ++ [0x09] ++ bytes_of_string "send-data"
    ++ [0x11; 0x32] ++ [0xFF] ++ payload in
  exists sent outcome,
    coap_send_sensor_data pf (Some app_main_uri) (Some payload) coap_buffer
    = Some ([EvLog LOGI "CoAP payload: %s";
             EvSocket (socket pf);
             EvInetPton (bytes_of_string "192.168.1.52")
               (inet_pton pf (bytes_of_string "192.168.1.52"));
             EvSendto (socket pf) (bytes_of_string "192.168.1.52") 5683
               datagram sent;
             EvClose (socket pf)] ++ outcome)
    /\ strlen datagram = 24 + strlen payload.
Proof.
  intros Hne Hlen Hbuffer Hsock Haddr. cbv zeta.
  destruct payload as [|c p]; [congruence|].
  assert (parse_coap_uri (Some app_main_uri)
          = ParseTrue {| host := bytes_of_string "192.168.1.52";
                         port := 5683;
                         path := bytes_of_string "sensor/send-data";
                         query := [] |}) as Hparse by reflexivity.
  eexists. eexists. split.
  - rewrite (dispatch_datagram pf app_main_uri _ (c :: p) coap_buffer Hparse).
    + cbv zeta. reflexivity.
    + cbn [path]. repeat constructor; simpl; lia.
    + exact Hbuffer.
    + cbn [path]. unfold strlen. cbn [length] in Hlen.
      change (path_segments (bytes_of_string "sensor/send-data"))
        with [bytes_of_string "sensor"; bytes_of_string "send-data"].
      unfold simple_message_of. rewrite !length_app.
      cbn [payload_part length]. simpl length. lia.
    + exact Hsock.
    + exact Haddr.
  - unfold strlen. rewrite !length_app. simpl length. lia.
Qed.

(** ** The further properties at sample inputs *)

Lemma build_simple_succeeds_iff_fits_witness :
  build_simple_coap_message scenario_a_uri None (replicate 512 0) 512
  = (Some 23,
     [0x40; 0x02; 0x12; 0x34;
      0xB6; 115; 101; 110; 115; 111; 114;
      0x09; 115; 101; 110; 100; 45; 100; 97; 116; 97;
      0x11; 50]
     ++ replicate 489 0).
Proof.
  refine (proj1 (build_simple_succeeds_iff_fits scenario_a_uri None
                   (replicate 512 0) 512 _ _ _ _ _) _).
  - vm_compute. lia.
  - vm_compute. repeat constructor.
  - vm_compute. split; discriminate.
  - reflexivity.
  - reflexivity.
  - vm_compute. discriminate.
Defined.

Lemma build_simple_stays_in_bounds_witness :
  drop 20
    (build_simple_coap_message scenario_a_uri (Some scenario_a_payload)
       (replicate 512 0) 20).2
  = drop 20 (replicate 512 0).
Proof.
  refine (proj1 (proj2 (build_simple_stays_in_bounds scenario_a_uri
                          (Some scenario_a_payload) (replicate 512 0) 20
                          _ _ _))).
  - vm_compute. discriminate.
  - reflexivity.
  - reflexivity.
Defined.

Lemma add_header_writes_header_witness :
  coap_message_add_header (coap_message_init (replicate 8 7) 8) 0x1234
  = (true,
     {| msg_buffer := [0x40; 0x02; 0x12; 0x34; 7; 7; 7; 7];
        msg_length := 4;
        msg_capacity := 8;
        msg_last_option_number := 0 |}).
Proof.
  refine (proj1 (proj2 (add_header_writes_header
                          (coap_message_init (replicate 8 7) 8) 0x1234
                          _ _ _ _) _ _)).
  - vm_compute. discriminate.
  - reflexivity.
  - reflexivity.
  - vm_compute. split; [discriminate | reflexivity].
  - vm_compute. discriminate.
  - vm_compute. lia.
Defined.


Lemma add_option_round_trip_witness :
  decode_option
    (drop 4 (msg_buffer
               (coap_message_add_option sample_builder 15
                  (Some [1; 2; 3]) 3).2))
  = Some (3, [1; 2; 3], replicate 12 7).
Proof.
  refine (add_option_round_trip sample_builder 15 (Some [1; 2; 3]) 3
            _ _ _ _ _ _).
  - vm_compute. discriminate.
  - vm_compute. split; discriminate.
  - reflexivity.
  - reflexivity.
  - vm_compute. discriminate.
  - vm_compute. discriminate.
Defined.

Lemma add_option_long_value_length_wraps_witness :
  (coap_message_add_option long_builder 11 (Some long_value) 70000).1 = true
  /\ 269 + (70000 - 269) mod 65536 = 4464.
Proof.
  pose proof (add_option_long_value_length_wraps long_builder 11
                (Some long_value) 70000
                ltac:(cbn; lia)
                ltac:(unfold strlen, long_value; cbn [deref];
                      rewrite length_replicate; lia)
                ltac:(reflexivity)
                ltac:(vm_compute; discriminate)
                ltac:(unfold strlen, long_builder; cbn;
                      rewrite length_replicate; lia)) as (Hok & _).
  split; [exact Hok | reflexivity].
Defined.

Lemma builder_agrees_with_simple_encoder_witness :
  (build_simple_coap_message scenario_a_uri (Some scenario_a_payload)
     (replicate 512 0) 512).2
  = msg_buffer
      (build_with_builder
         [bytes_of_string "sensor"; bytes_of_string "send-data"]
         (Some scenario_a_payload) (replicate 512 0) 512).2.
Proof.
  refine (proj1 (proj2 (proj2 (builder_agrees_with_simple_encoder
                                 scenario_a_uri (Some scenario_a_payload)
                                 (replicate 512 0) 512 _ _ _ _ _ _)))).
  - vm_compute. lia.
  - vm_compute. discriminate.
  - vm_compute. repeat constructor.
  - vm_compute. discriminate.
  - vm_compute. discriminate.
  - reflexivity.
Defined.

Lemma parse_rejects_other_scheme_witness :
  parse_coap_uri (Some (bytes_of_string "http://10.0.0.5/a")) = ParseFalse.
Proof.
  refine (parse_rejects_other_scheme (bytes_of_string "http://10.0.0.5/a") _).
  vm_compute. discriminate.
Defined.

Lemma parse_rejects_long_host_witness :
  parse_coap_uri
    (Some (bytes_of_string "coap://" ++ replicate 64 97
           ++ bytes_of_string "/a"))
  = ParseFalse.
Proof.
  refine (parse_rejects_long_host (replicate 64 97) (bytes_of_string "/a")
            _ _).
  - vm_compute. lia.
  - vm_compute. repeat constructor.
Defined.

Lemma parse_without_path_witness :
  parse_coap_uri (Some (bytes_of_string "coap://10.0.0.5:5683"))
  = ParseTrue {| host := bytes_of_string "10.0.0.5"; port := 5683;
                 path := []; query := [] |}
  /\ parse_coap_uri (Some (bytes_of_string "coap://10.0.0.5/")) = ParseFalse.
Proof.
  pose proof (parse_without_path (bytes_of_string "10.0.0.5")
                (bytes_of_string "5683")
                ltac:(repeat split;
                      [discriminate | vm_compute; lia
                       | vm_compute; repeat constructor])
                ltac:(repeat split;
                      [discriminate | vm_compute; repeat constructor
                       | vm_compute; discriminate]))
    as (Hport & _ & Hslash & _).
  split; [exact Hport | exact Hslash].
Defined.

Lemma parse_long_path_witness :
  parse_coap_uri
    (Some (bytes_of_string "coap://" ++ bytes_of_string "10.0.0.5"
           ++ 47 :: replicate 64 97 ++ question_mark :: bytes_of_string "x=1"))
  = ParseOverrun.
Proof.
  refine (proj2 (parse_long_path (bytes_of_string "10.0.0.5")
                   (replicate 64 97) (bytes_of_string "x=1") _ _ _ _ _)).
  - repeat split;
      [discriminate | vm_compute; lia | vm_compute; repeat constructor].
  - vm_compute. repeat constructor.
  - vm_compute. repeat constructor.
  - vm_compute. lia.
  - vm_compute. lia.
Defined.

Lemma wait_for_wifi_first_success_witness :
  wait_for_wifi late_platform 10000
  = (true, idle_polls 2 ++ [EvApInfo true]).
Proof.
  refine (proj1 (proj1 (wait_for_wifi_first_success late_platform 10000)
                   2%nat _ _ _)).
  - intros j Hj. destruct j as [|[|j]]; [reflexivity | reflexivity | lia].
  - reflexivity.
  - reflexivity.
Defined.

Lemma task_trace_invariants_witness :
  coap_send_task short_send_platform (Some app_main_uri)
    (Some scenario_a_payload) (replicate 512 0)
  = Some sample_task_trace
  /\ open_sockets sample_task_trace [] = []
  /\ Forall sendto_in_bounds sample_task_trace.
Proof.
  assert (coap_send_task short_send_platform (Some app_main_uri)
            (Some scenario_a_payload) (replicate 512 0)
          = Some sample_task_trace) as Hrun.
  { unfold coap_send_task, wait_for_wifi. cbv zeta.
    rewrite (wait_for_wifi_loop_success short_send_platform 10000 0 0 0)
      by first [reflexivity | intros; lia].
    cbn [fst snd negb].
    rewrite (dispatch_datagram short_send_platform app_main_uri scenario_a_uri
               scenario_a_payload (replicate 512 0)
               ltac:(vm_compute; reflexivity)
               ltac:(vm_compute; repeat constructor)
               ltac:(reflexivity)
               ltac:(vm_compute; discriminate)
               ltac:(vm_compute; discriminate)
               ltac:(reflexivity)).
    reflexivity. }
  split; [exact Hrun|].
  pose proof (task_trace_invariants short_send_platform (Some app_main_uri)
                (Some scenario_a_payload) (replicate 512 0) sample_task_trace
                ltac:(reflexivity) ltac:(reflexivity) Hrun)
    as (_ & _ & Hopen & _ & Hbounds).
  split; [exact Hopen | exact Hbounds].
Defined.

Lemma dispatch_sends_encoded_message_witness :
  exists sent outcome,
    coap_send_sensor_data short_send_platform (Some app_main_uri)
      (Some scenario_a_payload) (replicate 512 0)
    = Some ([EvLog LOGI "CoAP payload: %s";
             EvSocket 3;
             EvInetPton (bytes_of_string "192.168.1.52") 1;
             EvSendto 3 (bytes_of_string "192.168.1.52") 5683
               (simple_message_of
                  [bytes_of_string "sensor"; bytes_of_string "send-data"]
                  (Some scenario_a_payload))
               sent;
             EvClose 3] ++ outcome)
    /\ sent = 3.
Proof.
  destruct (dispatch_sends_encoded_message short_send_platform app_main_uri
              scenario_a_payload (replicate 512 0) scenario_a_uri
              ltac:(vm_compute; reflexivity)
              ltac:(vm_compute; repeat constructor)
              ltac:(reflexivity)
              ltac:(vm_compute; discriminate)
              ltac:(vm_compute; discriminate)
              ltac:(reflexivity)) as (sent & outcome & Hrun & Hsent & _).
  exists sent, outcome. split; [exact Hrun | exact Hsent].
Defined.

Lemma app_main_message_always_fits_witness :
  exists sent outcome,
    coap_send_sensor_data short_send_platform (Some app_main_uri)
      (Some scenario_a_payload) (replicate 512 0)
    = Some ([EvLog LOGI "CoAP payload: %s";
             EvSocket 3;
             EvInetPton (bytes_of_string "192.168.1.52") 1;
             EvSendto 3 (bytes_of_string "192.168.1.52") 5683
               ([0x40; 0x02; 0x12; 0x34;
                 0xB6; 115; 101; 110; 115; 111; 114;
                 0x09; 115; 101; 110; 100; 45; 100; 97; 116; 97;
                 0x11; 50; 0xFF] ++ scenario_a_payload)
               sent;
             EvClose 3] ++ outcome).
Proof.
  destruct (app_main_message_always_fits short_send_platform
              scenario_a_payload (replicate 512 0)
              ltac:(discriminate)
              ltac:(vm_compute; lia)
              ltac:(reflexivity)
              ltac:(vm_compute; discriminate)
              ltac:(reflexivity)) as (sent & outcome & Hrun & _).
  exists sent, outcome. exact Hrun.
Defined.
